(** * The line-protocol export encoder of freetsdb

    A shallow embedding of
    [cmd/freets_tools/internal/format/text/writer.go]: the [Writer] that
    turns typed array cursors into line-protocol text, either one key line
    per series ([Series] mode) or one line per point ([Values] mode), with
    an error field that latches the first failed point write.

    The Go methods mutate their receiver; here every method takes the
    encoder (and the cursor it drains) and returns the new one.  A method
    that can index a slice out of range returns an [outcome] that says
    whether it returned or panicked. *)

From Stdlib Require Import String Ascii.
From Stdlib Require Import ZArith NArith List Bool Lia.
From Stdlib Require Import Decimal DecimalString DecimalZ DecimalN.
From Stdlib.Strings Require Import Byte.
Import ListNotations.

Open Scope Z_scope.
Open Scope list_scope.

(** A Go [[]byte], by its visible contents. *)
Definition bytes := list byte.

(** A Go [error] value that is not nil: the message it carries. *)
Inductive error : Type := errorString (msg : string).

(** What a call does to control: it returns, or it panics (an index out of
    range).  Both carry the state reached. *)
Inductive outcome (A : Type) : Type :=
| Returned (a : A)
| Panicked (a : A).
Arguments Returned {A} a.
Arguments Panicked {A} a.

Definition state_of {A : Type} (o : outcome A) : A :=
  match o with Returned a => a | Panicked a => a end.

Definition has_panicked {A : Type} (o : outcome A) : bool :=
  match o with Returned _ => false | Panicked _ => true end.

(** ** strconv: the number formatting the encoder calls

    Go's standard library, base 10 only (the encoder passes no other
    base).  Each function appends to [dst] and returns the result. *)
Module strconv.

(** The decimal digits of [i], with a leading minus sign when negative. *)
Definition FormatInt (i : Z) : bytes :=
  list_byte_of_string (NilZero.string_of_int (Z.to_int i)).

Definition FormatUint (u : N) : bytes :=
  list_byte_of_string (NilZero.string_of_uint (N.to_uint u)).

Definition FormatBool (b : bool) : bytes :=
  if b then list_byte_of_string "true" else list_byte_of_string "false".

(** [strconv.AppendInt(dst, i, 10)] *)
Definition AppendInt (dst : bytes) (i : Z) : bytes := dst ++ FormatInt i.

(** [strconv.AppendUint(dst, u, 10)] *)
Definition AppendUint (dst : bytes) (u : N) : bytes := dst ++ FormatUint u.

(** [strconv.AppendBool(dst, b)] *)
Definition AppendBool (dst : bytes) (b : bool) : bytes := dst ++ FormatBool b.

(** Reading a decimal numeral back, to state that [FormatInt] loses
    nothing. *)
Definition ParseInt (s : bytes) : option Z :=
  option_map Z.of_int (NilZero.int_of_string (string_of_list_byte s)).

End strconv.

(** ** bufio: the buffered sink

    The encoder holds a [*bufio.Writer] (standard library) and does three
    things with it: [Write], [WriteByte] and [Flush], looking at nothing
    but the error each returns.  The sink is therefore modelled by the
    calls it has received, oldest first, and by a response function that
    decides, from the calls received so far and the call being made,
    whether that call fails.  Any deterministic sink is such a function:
    one that never fails, one that fails from some call on and keeps
    failing (bufio's own behaviour), one that runs out of room. *)
Module bufio.

Inductive call : Type :=
| WriteCall (p : bytes)
| WriteByteCall (c : byte)
| FlushCall.

Definition behaviour : Type := list call -> call -> option error.

Record Writer : Type := mkWriter {
  received : list call;
  respond : behaviour
}.

Definition invoke (b : Writer) (c : call) : Writer * option error :=
  (mkWriter (received b ++ [c]) (respond b), respond b (received b) c).

Definition Write (b : Writer) (p : bytes) : Writer * option error :=
  invoke b (WriteCall p).

Definition WriteByte (b : Writer) (c : byte) : Writer * option error :=
  invoke b (WriteByteCall c).

Definition Flush (b : Writer) : Writer * option error :=
  invoke b FlushCall.

(** [bufio.NewWriter(w)] around a sink that answers as [r]. *)
Definition NewWriter (r : behaviour) : Writer := mkWriter [] r.

(** The bytes a call hands to the sink. *)
Definition payload (c : call) : bytes :=
  match c with
  | WriteCall p => p
  | WriteByteCall c => [c]
  | FlushCall => []
  end.

(** Every byte handed to the sink so far, in order. *)
Definition output (b : Writer) : bytes := flat_map payload (received b).

(** A sink on which no call ever fails. *)
Definition reliable : behaviour := fun _ _ => None.

(** A sink whose every call fails with [e]. *)
Definition broken (e : error) : behaviour := fun _ _ => Some e.

(** A sink that accepts [n] calls and fails every later one with [e]. *)
Definition fails_after (n : nat) (e : error) : behaviour :=
  fun h _ => if (length h <? n)%nat then None else Some e.

End bufio.

(** An [io.Writer] handed to [NewWriter]: already a [*bufio.Writer], or
    some other writer, given by how a buffered writer around it answers. *)
Inductive io_Writer : Type :=
| Buffered (b : bufio.Writer)
| Unbuffered (r : bufio.behaviour).

(** ** tsdb: batches and cursors *)
Module tsdb.

(** Modelled from the spec: the array types of package tsdb
    ([IntegerArray], [FloatArray], ...) are declared outside the files at
    hand.  A batch exposes its length and two parallel sequences,
    timestamps and values; the encoder reads the fields [Timestamps] and
    [Values] and calls [Len]. *)
Record Array (V : Type) : Type := mkArray {
  Timestamps : list Z;
  Values : list V
}.
Arguments mkArray {V} _ _.
Arguments Timestamps {V} _.
Arguments Values {V} _.

(** Modelled from the spec: [Len] of package tsdb, the number of points
    of a batch; zero ends the stream. *)
Definition Len {V : Type} (a : Array V) : nat := length (Timestamps a).

(** Modelled from the spec: the cursor interfaces of package tsdb
    ([IntegerArrayCursor], ...): forward-only and single-pass, [Next]
    gives the next batch; a cursor that has nothing left gives a batch of
    length zero.  [pending] is what the cursor has yet to give and
    [fetched] counts the calls of [Next] it has served. *)
Record Cursor (V : Type) : Type := mkCursor {
  pending : list (Array V);
  fetched : nat
}.
Arguments mkCursor {V} _ _.
Arguments pending {V} _.
Arguments fetched {V} _.

(** Modelled from the spec: [Next] of the cursor interfaces, the batch
    fetched and the cursor after the fetch. *)
Definition Next {V : Type} (cur : Cursor V) : Array V * Cursor V :=
  match pending cur with
  | [] => (mkArray [] [], mkCursor [] (S (fetched cur)))
  | a :: rest => (a, mkCursor rest (S (fetched cur)))
  end.

(** A cursor that has served no call yet. *)
Definition NewCursor {V : Type} (batches : list (Array V)) : Cursor V :=
  mkCursor batches 0.

(** A batch from its points, each a timestamp and a value. *)
Definition points {V : Type} (ps : list (Z * V)) : Array V :=
  mkArray (map fst ps) (map snd ps).

Definition IntegerArrayCursor := Cursor Z.
Definition UnsignedArrayCursor := Cursor N.
Definition BooleanArrayCursor := Cursor bool.
Definition StringArrayCursor := Cursor bytes.

End tsdb.

(** ** models: tags and string-field escaping *)
Module models.

(** Modelled from the spec: [models.Tag] and [models.Tags] are declared
    outside the files at hand; a tag set is a sequence of pairs of a key
    and a value, both bytes. *)
Definition Tag : Type := (bytes * bytes)%type.
Definition Tags : Type := list Tag.

(** Modelled from the spec: [models.EscapeStringField] is defined
    outside the files at hand.  A string value is rendered with its
    internal double quotes and backslashes escaped: each is preceded by a
    backslash, every other byte is kept. *)
Fixpoint EscapeStringField (s : bytes) : bytes :=
  match s with
  | [] => []
  | c :: rest =>
      if Byte.eqb c x22 then x5c :: x22 :: EscapeStringField rest
      else if Byte.eqb c x5c then x5c :: x5c :: EscapeStringField rest
      else c :: EscapeStringField rest
  end.

End models.

(** Modelled from the spec: [influxql.DataType] is declared outside the
    files at hand; [BeginSeries] accepts one and never uses it.  An integer
    stands for it. *)
Definition DataType : Type := Z.

(** The functions of other packages that the encoder calls and whose bodies
    are not part of the files at hand.  Nothing is assumed of them. *)
Class Imports : Type := {
  (** the Go type [float64] *)
  float64 : Type;
  (** [strconv.AppendFloat(dst, f, 'g', -1, 64)] only appends to [dst]:
      the byte sequences it appends, in order *)
  AppendFloat_appends : float64 -> list bytes;
  (** [models.AppendMakeKey(dst, name, tags)] *)
  AppendMakeKey : bytes -> bytes -> models.Tags -> bytes;
  (** [escape.Bytes(in)] *)
  escape_Bytes : bytes -> bytes
}.

(** [strconv.AppendFloat(dst, f, 'g', -1, 64)], by what the slice it
    returns shows. *)
Definition AppendFloat `{Imports} (dst : bytes) (f : float64) : bytes :=
  dst ++ concat (AppendFloat_appends f).

(** ** text: the encoder *)
Module text.

(** [type Mode bool], with [Series = false] and [Values = true]. *)
Definition Mode : Type := bool.
Definition Series : Mode := false.
Definition Values : Mode := true.

(** The encoder: the sink [w], the scratch slice [key] by the bytes it
    shows, the error latch [err] (nil is [None]) and the mode [m]. *)
Record Writer : Type := mkWriter {
  w : bufio.Writer;
  key : bytes;
  err : option error;
  m : Mode
}.

(** [x != nil] on an error. *)
Definition not_nil (e : option error) : bool :=
  match e with Some _ => true | None => false end.

Definition NewWriter (w0 : io_Writer) (mode : Mode) : Writer :=
  let wr :=
    match w0 with
    | Buffered b => b
    | Unbuffered r => bufio.NewWriter r
    end in
  mkWriter wr (repeat x00 1024) None mode.

(** [NewBucket] gives the receiver back, and no error. *)
Definition NewBucket (self : Writer) (start end_ : Z) : Writer * option error :=
  (self, None).

Definition Close (self : Writer) : Writer * option error :=
  let (wr, e) := bufio.Flush (w self) in
  (mkWriter wr (key self) (err self) (m self), e).

Definition Err (self : Writer) : option error := err self.

Definition EndSeries (self : Writer) : Writer := self.

(** *** The local slice [buf] and the array of [w.key]

    Each Write method starts with [buf := w.key]: a second slice on the
    array of [w.key].  In the loop [buf = buf[:0]] cuts it to length zero
    and every [append] that fits the capacity writes into that array, so
    into the bytes [w.key] shows; an [append] that does not fit moves [buf]
    to a new array, for the rest of the call, and the array of [w.key] is
    written no more.

    The field [key] holds the bytes [w.key] shows.  The capacity of the
    array is taken to be the length of [w.key]: the loops run in [Values]
    mode only, where [w.key] is the slice [NewWriter] made with
    [make([]byte, 1024)], which no method assigns in that mode. *)
Inductive local : Type :=
| OnKey (n : nat)
| Own (held : bytes).

(** [buf[:0]] *)
Definition cut0 (buf : local) : local :=
  match buf with
  | OnKey _ => OnKey 0
  | Own _ => Own []
  end.

(** [append(buf, c...)], [k] being what [w.key] shows: what it shows
    afterwards, and [buf]. *)
Definition append_buf (k : bytes) (buf : local) (c : bytes) : bytes * local :=
  match buf with
  | OnKey n =>
      if (n + length c <=? length k)%nat
      then (firstn n k ++ c ++ skipn (n + length c) k, OnKey (n + length c))
      else (k, Own (firstn n k ++ c))
  | Own held => (k, Own (held ++ c))
  end.

(** The appends [cs], one after the other. *)
Fixpoint appends_to (k : bytes) (buf : local) (cs : list bytes) : bytes * local :=
  match cs with
  | [] => (k, buf)
  | c :: cs' => let (k', buf') := append_buf k buf c in appends_to k' buf' cs'
  end.

(** The bytes [buf] shows. *)
Definition shown (k : bytes) (buf : local) : bytes :=
  match buf with
  | OnKey n => firstn n k
  | Own held => held
  end.

(** *** The lines of the five value kinds

    The appends of a loop body, in order: [opening], those made before
    [a.Values[i]] is read, and [closing v t], those made from that read on.
    The read panics when [i] is out of range, after the appends of
    [opening] were made: only the string loop has one, its opening quote.
    [strconv.AppendInt], [strconv.AppendUint] and [strconv.AppendBool]
    append what they format in one [append]; the appends
    [strconv.AppendFloat] makes are those of [AppendFloat_appends]. *)
Record body (V : Type) : Type := mkBody {
  opening : list bytes;
  closing : V -> Z -> list bytes
}.

Arguments mkBody {V} opening closing.
Arguments opening {V} b.
Arguments closing {V} b v t.

Definition integer_appends : body Z :=
  mkBody []
    (fun v t =>
       [ strconv.AppendInt [] v;
         ["i"%byte];
         [" "%byte];
         strconv.AppendInt [] t;
         [x0a] ]).

Definition unsigned_appends : body N :=
  mkBody []
    (fun v t =>
       [ strconv.AppendUint [] v;
         ["u"%byte];
         [" "%byte];
         strconv.AppendInt [] t;
         [x0a] ]).

Definition boolean_appends : body bool :=
  mkBody []
    (fun v t =>
       [ strconv.AppendBool [] v;
         [" "%byte];
         strconv.AppendInt [] t;
         [x0a] ]).

Definition string_appends : body bytes :=
  mkBody [ [x22] ]
    (fun v t =>
       [ models.EscapeStringField v;
         [x22];
         [" "%byte];
         strconv.AppendInt [] t;
         [x0a] ]).

Definition float_appends `{Imports} : body float64 :=
  mkBody []
    (fun v t =>
       AppendFloat_appends v ++
       [ [" "%byte];
         strconv.AppendInt [] t;
         [x0a] ]).

(** *** The loop the five Write methods share *)
Section Drain.

Context {V : Type}.
Variable appends : body V.

(** How the inner loop ends: it ran through the batch, it returned from
    the method on a failed write, or it panicked. *)
Inductive flow : Type :=
| Through (self : Writer) (buf : local)
| Return_ (self : Writer)
| Panic_ (self : Writer).

(** The start of the body: cut [buf] and make the appends that come
    before [a.Values[i]] is read.  What [w.key] then shows, and [buf]. *)
Definition open_line (self : Writer) (buf : local) : bytes * local :=
  let buf := cut0 buf in
  appends_to (key self) buf (opening appends).

(** The body of the inner loop when [a.Values[i]] is there: the start, the
    appends made with the value, the write.  The encoder comes back with
    what [w.key] now shows and with the result of the write in [w.err]. *)
Definition write_point (self : Writer) (buf : local) (v : V) (t : Z)
    : Writer * local :=
  let (k, buf) := open_line self buf in
  let (k, buf) := appends_to k buf (closing appends v t) in
  let (wr, e) := bufio.Write (w self) (shown k buf) in
  (mkWriter wr k e (m self), buf).

(** [for i := range a.Timestamps { ... }], from index [i] on, [ts] being the
    timestamps from there.  [a.Values[i]] panics when [i] is out of range,
    the start of the body done.  The write assigns [w.err] and the method
    returns when it is not nil. *)
Fixpoint range_Timestamps (self : Writer) (buf : local) (a : tsdb.Array V)
    (ts : list Z) (i : nat) : flow :=
  match ts with
  | [] => Through self buf
  | t :: ts' =>
      match nth_error (tsdb.Values a) i with
      | None =>
          Panic_ (mkWriter (w self) (fst (open_line self buf)) (err self) (m self))
      | Some v =>
          let (self', buf') := write_point self buf v t in
          if not_nil (err self') then Return_ self'
          else range_Timestamps self' buf' a ts' (S i)
      end
  end.

(** [for { a := cur.Next(); if a.Len() == 0 { break }; ... }], on a cursor
    with [batches] pending that has served [n] calls of [Next]. *)
Fixpoint drain (self : Writer) (buf : local) (batches : list (tsdb.Array V))
    (n : nat) : outcome (Writer * tsdb.Cursor V) :=
  match batches with
  | [] => Returned (self, tsdb.mkCursor [] (S n))
  | a :: rest =>
      if (tsdb.Len a =? 0)%nat then Returned (self, tsdb.mkCursor rest (S n))
      else
        match range_Timestamps self buf a (tsdb.Timestamps a) 0 with
        | Through self' buf' => drain self' buf' rest (S n)
        | Return_ self' => Returned (self', tsdb.mkCursor rest (S n))
        | Panic_ self' => Panicked (self', tsdb.mkCursor rest (S n))
        end
  end.

(** A typed Write method: the guard, then [buf := w.key] and the loop. *)
Definition WriteCursor (self : Writer) (cur : tsdb.Cursor V)
    : outcome (Writer * tsdb.Cursor V) :=
  if not_nil (err self) || Bool.eqb (m self) Series then Returned (self, cur)
  else
    let buf := OnKey (length (key self)) in
    drain self buf (tsdb.pending cur) (tsdb.fetched cur).

End Drain.

Definition WriteIntegerCursor (self : Writer) (cur : tsdb.IntegerArrayCursor) :=
  WriteCursor integer_appends self cur.

Definition WriteUnsignedCursor (self : Writer) (cur : tsdb.UnsignedArrayCursor) :=
  WriteCursor unsigned_appends self cur.

Definition WriteBooleanCursor (self : Writer) (cur : tsdb.BooleanArrayCursor) :=
  WriteCursor boolean_appends self cur.

Definition WriteStringCursor (self : Writer) (cur : tsdb.StringArrayCursor) :=
  WriteCursor string_appends self cur.

Section WithImports.

Context `{Imports}.

Definition WriteFloatCursor (self : Writer) (cur : tsdb.Cursor float64) :=
  WriteCursor float_appends self cur.

(** [BeginSeries]: nothing when latched; in [Series] mode the key line.
    The results of [Write] and [WriteByte] are dropped. *)
Definition BeginSeries (self : Writer) (name field : bytes) (typ : DataType)
    (tags : models.Tags) : Writer :=
  if not_nil (err self) then self
  else if Bool.eqb (m self) Series then
    let k := AppendMakeKey (firstn 0 (key self)) name tags in
    let k := k ++ [" "%byte] in
    let k := k ++ escape_Bytes field in
    let (wr, _) := bufio.Write (w self) k in
    let (wr, _) := bufio.WriteByte wr x0a in
    mkWriter wr k (err self) (m self)
  else self.

(** *** Call sequences

    One call of the driver on the encoder.  A typed Write carries the
    cursor it is given. *)
Inductive op : Type :=
| CallNewBucket (start end_ : Z)
| CallBeginSeries (name field : bytes) (typ : DataType) (tags : models.Tags)
| CallEndSeries
| CallWriteIntegerCursor (cur : tsdb.IntegerArrayCursor)
| CallWriteFloatCursor (cur : tsdb.Cursor float64)
| CallWriteUnsignedCursor (cur : tsdb.UnsignedArrayCursor)
| CallWriteBooleanCursor (cur : tsdb.BooleanArrayCursor)
| CallWriteStringCursor (cur : tsdb.StringArrayCursor)
| CallErr
| CallClose.

Definition is_typed_write (o : op) : bool :=
  match o with
  | CallWriteIntegerCursor _ | CallWriteFloatCursor _
  | CallWriteUnsignedCursor _ | CallWriteBooleanCursor _
  | CallWriteStringCursor _ => true
  | _ => false
  end.

Definition is_BeginSeries (o : op) : bool :=
  match o with CallBeginSeries _ _ _ _ => true | _ => false end.

Definition is_EndSeries (o : op) : bool :=
  match o with CallEndSeries => true | _ => false end.

Definition with_cursor {V : Type} (mk : tsdb.Cursor V -> op)
    (o : outcome (Writer * tsdb.Cursor V)) : outcome (Writer * op) :=
  match o with
  | Returned (self, cur) => Returned (self, mk cur)
  | Panicked (self, cur) => Panicked (self, mk cur)
  end.

(** One call: the encoder after it, and the call with its cursor as the
    call left it. *)
Definition exec (self : Writer) (o : op) : outcome (Writer * op) :=
  match o with
  | CallNewBucket start end_ => Returned (fst (NewBucket self start end_), o)
  | CallBeginSeries name field typ tags =>
      Returned (BeginSeries self name field typ tags, o)
  | CallEndSeries => Returned (EndSeries self, o)
  | CallWriteIntegerCursor cur =>
      with_cursor CallWriteIntegerCursor (WriteIntegerCursor self cur)
  | CallWriteFloatCursor cur =>
      with_cursor CallWriteFloatCursor (WriteFloatCursor self cur)
  | CallWriteUnsignedCursor cur =>
      with_cursor CallWriteUnsignedCursor (WriteUnsignedCursor self cur)
  | CallWriteBooleanCursor cur =>
      with_cursor CallWriteBooleanCursor (WriteBooleanCursor self cur)
  | CallWriteStringCursor cur =>
      with_cursor CallWriteStringCursor (WriteStringCursor self cur)
  | CallErr => Returned (self, o)
  | CallClose => Returned (fst (Close self), o)
  end.

(** A sequence of calls, in order; a panic ends it, the calls not reached
    are given back as they were. *)
Fixpoint run (self : Writer) (ops : list op) : outcome (Writer * list op) :=
  match ops with
  | [] => Returned (self, [])
  | o :: rest =>
      match exec self o with
      | Returned (self', o') =>
          match run self' rest with
          | Returned (self'', rest') => Returned (self'', o' :: rest')
          | Panicked (self'', rest') => Panicked (self'', o' :: rest')
          end
      | Panicked (self', o') => Panicked (self', o' :: rest)
      end
  end.

(** The encoder a call sequence ends with, and what its sink was handed. *)
Definition encoder_after (self : Writer) (ops : list op) : Writer :=
  fst (state_of (run self ops)).

Definition output_after (self : Writer) (ops : list op) : bytes :=
  bufio.output (w (encoder_after self ops)).

End WithImports.

End text.

Import text.

(** * Facts about the shared loop *)

(** The encoder a run of the inner loop ends with. *)
Definition flow_state (r : flow) : Writer :=
  match r with
  | Through self _ => self
  | Return_ self => self
  | Panic_ self => self
  end.

(** The encoder after the lines [ls] were written, one [Write] each, none
    of them failing. *)
Definition emit (self : Writer) (ls : list bytes) : Writer :=
  mkWriter
    (bufio.mkWriter (bufio.received (w self) ++ map bufio.WriteCall ls)
                    (bufio.respond (w self)))
    (key self) (err self) (m self).

(** The encoder with [k] for what its scratch slice shows. *)
Definition set_key (self : Writer) (k : bytes) : Writer :=
  mkWriter (w self) k (err self) (m self).

(** Two encoders alike in all but what their scratch slices show. *)
Definition alike (s1 s2 : Writer) : Prop :=
  w s1 = w s2 /\ err s1 = err s2 /\ m s1 = m s2.

(** A sink none of whose [Write] calls fails, whatever came before. *)
Definition accepts_every_Write (b : bufio.Writer) : Prop :=
  forall h p, bufio.respond b h (bufio.WriteCall p) = None.

(** The batches a drain goes through: those before the first batch of
    length zero. *)
Fixpoint stream {V : Type} (batches : list (tsdb.Array V)) : list (tsdb.Array V) :=
  match batches with
  | [] => []
  | a :: rest => if (tsdb.Len a =? 0)%nat then [] else a :: stream rest
  end.

(** What is left behind the batch of length zero that ended a drain. *)
Fixpoint beyond {V : Type} (batches : list (tsdb.Array V)) : list (tsdb.Array V) :=
  match batches with
  | [] => []
  | a :: rest => if (tsdb.Len a =? 0)%nat then rest else beyond rest
  end.

(** The points of a batch, timestamp first, in order. *)
Definition pairs {V : Type} (a : tsdb.Array V) : list (Z * V) :=
  combine (tsdb.Timestamps a) (tsdb.Values a).

(** Every timestamp of the batch has its value. *)
Definition parallel {V : Type} (a : tsdb.Array V) : Prop :=
  (length (tsdb.Timestamps a) <= length (tsdb.Values a))%nat.

(** The line of a point: the appends of the body, end to end. *)
Definition rendered {V : Type} (appends : body V) (p : Z * V)
    : bytes :=
  concat (opening appends ++ closing appends (snd p) (fst p)).

(** The plain way to write a list of lines to a sink: one [Write] per line,
    in order, stopping at the first that fails.  [written] gives the calls
    the sink has received then, [h] being those it had received before, and
    the error that stopped the writing, if any. *)
Fixpoint written (rsp : bufio.behaviour) (h : list bufio.call) (ls : list bytes)
    : list bufio.call * option error :=
  match ls with
  | [] => (h, None)
  | l :: ls' =>
      match rsp h (bufio.WriteCall l) with
      | Some e => (h ++ [bufio.WriteCall l], Some e)
      | None => written rsp (h ++ [bufio.WriteCall l]) ls'
      end
  end.

(** The encoder after its lines were written that way. *)
Definition wrote (self : Writer) (ls : list bytes) : Writer :=
  let r := written (bufio.respond (w self)) (bufio.received (w self)) ls in
  mkWriter (bufio.mkWriter (fst r) (bufio.respond (w self)))
           (key self) (snd r) (m self).

Lemma emit_nil (self : Writer) : emit self [] = self.
Proof.
  destruct self as [[rcv rsp] k e md]. unfold emit. simpl.
  now rewrite app_nil_r.
Qed.

Lemma emit_app (self : Writer) (xs ys : list bytes) :
  emit (emit self xs) ys = emit self (xs ++ ys).
Proof.
  unfold emit. simpl. now rewrite map_app, app_assoc.
Qed.

Lemma output_emit (self : Writer) (ls : list bytes) :
  bufio.output (w (emit self ls)) = bufio.output (w self) ++ concat ls.
Proof.
  unfold bufio.output, emit. simpl.
  rewrite flat_map_app. f_equal.
  induction ls as [|l ls IH]; simpl; [reflexivity | now rewrite IH].
Qed.

Lemma alike_refl (s : Writer) : alike s s.
Proof. repeat split. Qed.

Lemma alike_trans (s1 s2 s3 : Writer) : alike s1 s2 -> alike s2 s3 -> alike s1 s3.
Proof.
  intros (A & B & C) (A' & B' & C'). repeat split; congruence.
Qed.

Lemma alike_set_key (s t : Writer) : alike s t -> s = set_key t (key s).
Proof.
  destruct s as [ws ks es ms], t as [wt kt et mt].
  intros (A & B & C). simpl in *. subst. reflexivity.
Qed.

Lemma set_key_alike (s : Writer) (k : bytes) : alike (set_key s k) s.
Proof. repeat split. Qed.

Lemma alike_emit (s t : Writer) (ls : list bytes) :
  alike s t -> alike (emit s ls) (emit t ls).
Proof.
  intros (A & B & C). unfold emit. repeat split; simpl; congruence.
Qed.

Lemma set_key_emit_alike (s t : Writer) (ls : list bytes) (k : bytes) :
  alike s t -> set_key (emit s ls) k = set_key (emit t ls) k.
Proof.
  intros (A & B & C). unfold set_key, emit. simpl. now rewrite A, B, C.
Qed.

Lemma written_app (rsp : bufio.behaviour) (l1 l2 : list bytes) :
  forall h,
    written rsp h (l1 ++ l2) =
    match snd (written rsp h l1) with
    | None => written rsp (fst (written rsp h l1)) l2
    | Some e => written rsp h l1
    end.
Proof.
  induction l1 as [|l l1 IH]; intros h; simpl; [reflexivity|].
  destruct (rsp h (bufio.WriteCall l)); simpl; [reflexivity | apply IH].
Qed.

Lemma wrote_nil (self : Writer) : err self = None -> wrote self [] = self.
Proof.
  intros E. destruct self as [[rcv rsp] k e md]. unfold wrote. simpl in *.
  now subst.
Qed.

Lemma wrote_app (self : Writer) (l1 l2 : list bytes) :
  wrote self (l1 ++ l2) =
  match err (wrote self l1) with
  | None => wrote (wrote self l1) l2
  | Some _ => wrote self l1
  end.
Proof.
  unfold wrote. simpl. rewrite written_app.
  destruct (written (bufio.respond (w self)) (bufio.received (w self)) l1)
    as [h1 [e|]]; reflexivity.
Qed.

Lemma alike_wrote (s t : Writer) (ls : list bytes) :
  alike s t -> alike (wrote s ls) (wrote t ls).
Proof.
  intros (A & B & C). unfold wrote. rewrite A. repeat split; simpl; congruence.
Qed.

(** ** Lists *)

Lemma skipn_head {A : Type} (i : nat) :
  forall (l : list A) (x : A) (xs : list A),
    skipn i l = x :: xs -> nth_error l i = Some x /\ skipn (S i) l = xs.
Proof.
  induction i as [|i IH]; intros l x xs E.
  - destruct l as [|y l]; simpl in E; [discriminate|].
    injection E as -> ->. split; reflexivity.
  - destruct l as [|y l]; simpl in E; [discriminate|].
    apply IH in E. exact E.
Qed.

Lemma nth_error_skipn_cons {A : Type} (l : list A) :
  forall (i : nat) (x : A),
    nth_error l i = Some x -> skipn i l = x :: skipn (S i) l.
Proof.
  induction l as [|y l IH]; intros [|i] x E; simpl in E; try discriminate.
  - now injection E as ->.
  - apply IH, E.
Qed.

Lemma firstn_app_prefix {A : Type} (k : nat) :
  forall l1 l2 : list A, exists k', firstn k l1 = firstn k' (l1 ++ l2).
Proof.
  induction k as [|k IH]; intros l1 l2.
  - exists 0%nat. reflexivity.
  - destruct l1 as [|x l1].
    + exists 0%nat. reflexivity.
    + destruct (IH l1 l2) as [k' Hk']. exists (S k'). simpl. now rewrite Hk'.
Qed.

Lemma flat_map_lines {V : Type} (f : Z * V -> bytes) (bs : list (tsdb.Array V)) :
  flat_map (fun a => map f (pairs a)) bs = map f (flat_map pairs bs).
Proof.
  induction bs as [|a bs IH]; simpl; [reflexivity|].
  now rewrite map_app, IH.
Qed.

Lemma firstn_exact {A : Type} (a b x : list A) :
  firstn (length a + length b) (a ++ b ++ x) = a ++ b.
Proof.
  rewrite app_assoc, <- length_app.
  rewrite <- (Nat.add_0_r (length (a ++ b))), firstn_app_2.
  simpl. apply app_nil_r.
Qed.

(** ** The local slice *)

(** [buf], while on the array of [w.key], is no longer than that array. *)
Definition fits (k : bytes) (buf : local) : Prop :=
  match buf with
  | OnKey n => (n <= length k)%nat
  | Own _ => True
  end.

(** An append adds its bytes to what [buf] shows, whether it writes into
    the array of [w.key] or moves [buf] away; what [w.key] shows keeps its
    length. *)
Lemma append_buf_shown (k : bytes) (buf : local) (c : bytes) :
  fits k buf ->
  shown (fst (append_buf k buf c)) (snd (append_buf k buf c)) = shown k buf ++ c /\
  length (fst (append_buf k buf c)) = length k /\
  fits (fst (append_buf k buf c)) (snd (append_buf k buf c)).
Proof.
  destruct buf as [n|held]; simpl; [|auto].
  intros Hn. destruct (n + length c <=? length k)%nat eqn:Q; simpl; [|auto].
  apply Nat.leb_le in Q.
  assert (Ln : length (firstn n k) = n) by (rewrite length_firstn; lia).
  assert (Lk : length (firstn n k ++ c ++ skipn (n + length c) k) = length k).
  { rewrite !length_app, Ln, length_skipn. lia. }
  repeat split.
  - rewrite <- Ln at 1. apply firstn_exact.
  - exact Lk.
  - rewrite Lk. exact Q.
Qed.

Lemma appends_to_shown (cs : list bytes) :
  forall k buf,
    fits k buf ->
    shown (fst (appends_to k buf cs)) (snd (appends_to k buf cs)) =
      shown k buf ++ concat cs /\
    length (fst (appends_to k buf cs)) = length k /\
    fits (fst (appends_to k buf cs)) (snd (appends_to k buf cs)).
Proof.
  induction cs as [|c cs IH]; intros k buf F; simpl.
  - now rewrite app_nil_r.
  - destruct (append_buf_shown k buf c F) as (S1 & L1 & F1).
    destruct (append_buf k buf c) as [k1 buf1]. simpl in *.
    destruct (IH k1 buf1 F1) as (S2 & L2 & F2).
    rewrite S2, S1, L2, L1, <- app_assoc. auto.
Qed.

Lemma cut0_fits (k : bytes) (buf : local) :
  fits k (cut0 buf) /\ shown k (cut0 buf) = [].
Proof.
  destruct buf; simpl; split; auto with arith.
Qed.

(** ** The loop *)

Section DrainFacts.

Context {V : Type}.
Variable appends : body V.

(** The start of the body leaves [buf] showing the appends made before the
    value is read; what the scratch slice shows keeps its length. *)
Lemma open_line_shown (self : Writer) (buf : local) :
  fits (fst (open_line appends self buf)) (snd (open_line appends self buf)) /\
  shown (fst (open_line appends self buf)) (snd (open_line appends self buf)) =
    concat (opening appends) /\
  length (fst (open_line appends self buf)) = length (key self).
Proof.
  unfold open_line.
  destruct (cut0_fits (key self) buf) as [F S0].
  destruct (appends_to_shown (opening appends) _ _ F) as (Sh & L & F').
  rewrite Sh, S0. auto.
Qed.

(** The body of the inner loop hands the sink one [Write] of the line of
    the point, and the encoder comes back with the result in its latch;
    only what the scratch slice shows depends on [buf]. *)
Lemma write_point_spec (self : Writer) (buf : local) (v : V) (t : Z) :
  exists k buf',
    write_point appends self buf v t =
    (mkWriter
       (bufio.mkWriter
          (bufio.received (w self) ++ [bufio.WriteCall (rendered appends (t, v))])
          (bufio.respond (w self)))
       k
       (bufio.respond (w self) (bufio.received (w self))
          (bufio.WriteCall (rendered appends (t, v))))
       (m self),
     buf').
Proof.
  unfold write_point.
  destruct (open_line_shown self buf) as (F & S0 & _).
  destruct (open_line appends self buf) as [k0 b0]. simpl in F, S0.
  destruct (appends_to_shown (closing appends v t) _ _ F) as (Sh & _ & _).
  destruct (appends_to k0 b0 (closing appends v t)) as [k b].
  simpl in Sh. rewrite Sh, S0. unfold rendered. rewrite concat_app.
  simpl. eauto.
Qed.

(** What the scratch slice shows keeps its length through the body. *)
Lemma write_point_length (self : Writer) (buf : local) (v : V) (t : Z) :
  length (key (fst (write_point appends self buf v t))) = length (key self).
Proof.
  unfold write_point.
  destruct (open_line_shown self buf) as (F & _ & L0).
  destruct (open_line appends self buf) as [k0 b0]. simpl in F, L0.
  destruct (appends_to_shown (closing appends v t) _ _ F) as (_ & L & _).
  destruct (appends_to k0 b0 (closing appends v t)) as [k b].
  simpl in *. congruence.
Qed.

(** The loop of [drain] is the loop of the source: fetch with [Next], stop
    on a batch of length zero, else go through the batch and loop. *)
Lemma drain_Next (self : Writer) (buf : local) (cur : tsdb.Cursor V) :
  drain appends self buf (tsdb.pending cur) (tsdb.fetched cur) =
  let (a, cur') := tsdb.Next cur in
  if (tsdb.Len a =? 0)%nat then Returned (self, cur')
  else
    match range_Timestamps appends self buf a (tsdb.Timestamps a) 0 with
    | Through self' buf' =>
        drain appends self' buf' (tsdb.pending cur') (tsdb.fetched cur')
    | Return_ self' => Returned (self', cur')
    | Panic_ self' => Panicked (self', cur')
    end.
Proof.
  destruct cur as [[|a rest] n]; unfold tsdb.Next; simpl; reflexivity.
Qed.

Ltac point_step self buf v t :=
  let k := fresh "k" in
  let b := fresh "b" in
  destruct (write_point_spec self buf v t) as (k & b & ->);
  cbn [err not_nil].

(** The inner loop touches neither the mode nor the way the sink answers. *)
Lemma range_frame (ts : list Z) :
  forall self buf a i,
    let s := flow_state (range_Timestamps appends self buf a ts i) in
    m s = m self /\ bufio.respond (w s) = bufio.respond (w self).
Proof.
  induction ts as [|t ts IH]; intros self buf a i; cbn [range_Timestamps].
  - simpl. auto.
  - destruct (nth_error (tsdb.Values a) i) as [v|]; [|simpl; auto].
    point_step self buf v t.
    destruct (bufio.respond (w self) (bufio.received (w self))
                (bufio.WriteCall (rendered appends (t, v)))) as [e|] eqn:R.
    + simpl. auto.
    + match goal with
      | |- context [range_Timestamps appends ?s ?b' a ts (S i)] =>
          specialize (IH s b' a (S i))
      end.
      simpl in IH. exact IH.
Qed.

(** The latch through the inner loop: it is set exactly when the loop
    returns from the method, and then the failed [Write] is the last call
    the sink received. *)
Lemma range_latch (ts : list Z) :
  forall self buf a i,
    err self = None ->
    match range_Timestamps appends self buf a ts i with
    | Through s _ => err s = None
    | Panic_ s => err s = None
    | Return_ s =>
        exists pre p e,
          bufio.received (w s) = pre ++ [bufio.WriteCall p] /\
          bufio.respond (w s) pre (bufio.WriteCall p) = Some e /\
          err s = Some e
    end.
Proof.
  induction ts as [|t ts IH]; intros self buf a i E; cbn [range_Timestamps].
  - exact E.
  - destruct (nth_error (tsdb.Values a) i) as [v|]; [|exact E].
    point_step self buf v t.
    destruct (bufio.respond (w self) (bufio.received (w self))
                (bufio.WriteCall (rendered appends (t, v)))) as [e|] eqn:R.
    + exists (bufio.received (w self)), (rendered appends (t, v)), e. simpl. auto.
    + apply IH. reflexivity.
Qed.

(** The inner loop is the plain writing of the lines of the batch: when it
    goes through, every timestamp had its value and every line was written;
    when it returns from the method, the lines were written up to the one
    whose write failed; when it panics, a value was missing and the lines
    of the values there are were written. *)
Lemma range_written (ts : list Z) :
  forall self buf a i,
    err self = None ->
    let ls := map (rendered appends) (combine ts (skipn i (tsdb.Values a))) in
    match range_Timestamps appends self buf a ts i with
    | Through s _ =>
        alike s (wrote self ls) /\ err s = None /\
        (length ts <= length (skipn i (tsdb.Values a)))%nat
    | Return_ s =>
        exists k e,
          alike s (wrote self (firstn k ls)) /\ err s = Some e
    | Panic_ s =>
        alike s (wrote self ls) /\ err s = None /\
        (length (skipn i (tsdb.Values a)) < length ts)%nat
    end.
Proof.
  induction ts as [|t ts IH]; intros self buf a i E; cbn [range_Timestamps].
  - cbn [combine map length]. rewrite (wrote_nil self E).
    repeat split; [exact E | lia].
  - destruct (nth_error (tsdb.Values a) i) as [v|] eqn:N.
    2:{ rewrite <- (hd_error_skipn i (tsdb.Values a)) in N.
        destruct (skipn i (tsdb.Values a)); [|discriminate].
        cbn [combine map length]. rewrite (wrote_nil self E).
        repeat split; [exact E | lia]. }
    rewrite (nth_error_skipn_cons _ _ _ N).
    set (vs := skipn (S i) (tsdb.Values a)) in *.
    cbn [combine map length].
    point_step self buf v t.
    destruct (bufio.respond (w self) (bufio.received (w self))
                (bufio.WriteCall (rendered appends (t, v)))) as [e|] eqn:R.
    + exists 1%nat, e. split; [|reflexivity].
      unfold wrote. cbn [firstn written]. rewrite R. repeat split.
    + match goal with
      | |- context [range_Timestamps appends ?s ?b' a ts (S i)] =>
          specialize (IH s b' a (S i) eq_refl); fold vs in IH;
          assert (W : forall xs, alike (wrote s xs)
                        (wrote self (rendered appends (t, v) :: xs)));
          [ intros xs; unfold wrote; cbn [written w bufio.received bufio.respond];
            rewrite R; repeat split
          | destruct (range_Timestamps appends s b' a ts (S i)) as [s' b''|s'|s'] ]
      end.
      * destruct IH as (A & Es & Hl). split; [|split; [exact Es | lia]].
        eapply alike_trans; [exact A | apply W].
      * destruct IH as (k' & e & A & Es). exists (S k'), e. split; [|exact Es].
        eapply alike_trans; [exact A | apply W].
      * destruct IH as (A & Es & Hl). split; [|split; [exact Es | lia]].
        eapply alike_trans; [exact A | apply W].
Qed.

End DrainFacts.

(** ** Plain writing *)

Lemma written_accepts (rsp : bufio.behaviour) (ls : list bytes) :
  (forall h p, rsp h (bufio.WriteCall p) = None) ->
  forall h, written rsp h ls = (h ++ map bufio.WriteCall ls, None).
Proof.
  intros Acc. induction ls as [|l ls IH]; intros h; simpl.
  - now rewrite app_nil_r.
  - rewrite Acc, IH, <- app_assoc. reflexivity.
Qed.

Lemma written_None (rsp : bufio.behaviour) (ls : list bytes) :
  forall h,
    snd (written rsp h ls) = None ->
    fst (written rsp h ls) = h ++ map bufio.WriteCall ls.
Proof.
  induction ls as [|l ls IH]; intros h; simpl.
  - now rewrite app_nil_r.
  - destruct (rsp h (bufio.WriteCall l)); simpl; [discriminate|].
    intros N. rewrite (IH _ N), <- app_assoc. reflexivity.
Qed.

(** The calls received are a write of each line up to the last written,
    and the write of that one is the only one that can have failed. *)
Lemma written_Some (rsp : bufio.behaviour) (ls : list bytes) :
  forall h e,
    snd (written rsp h ls) = Some e ->
    exists done l,
      fst (written rsp h ls) = h ++ map bufio.WriteCall (done ++ [l]) /\
      (exists rest, ls = done ++ l :: rest) /\
      written rsp h done = (h ++ map bufio.WriteCall done, None) /\
      rsp (h ++ map bufio.WriteCall done) (bufio.WriteCall l) = Some e.
Proof.
  induction ls as [|l ls IH]; intros h e; simpl; [discriminate|].
  destruct (rsp h (bufio.WriteCall l)) as [e'|] eqn:R; simpl.
  - intros [= ->]. exists [], l. simpl. rewrite app_nil_r. eauto.
  - intros S. destruct (IH _ _ S) as (done & l' & F & (rest & ->) & W & Rl).
    exists (l :: done), l'. simpl. rewrite R, W, F.
    rewrite <- !app_assoc in *. simpl. repeat split; eauto.
Qed.

Lemma written_received (rsp : bufio.behaviour) (ls : list bytes) :
  forall h,
    exists j, fst (written rsp h ls) = h ++ map bufio.WriteCall (firstn j ls).
Proof.
  induction ls as [|l ls IH]; intros h; simpl.
  - exists 0%nat. simpl. now rewrite app_nil_r.
  - destruct (rsp h (bufio.WriteCall l)); simpl.
    + exists 1%nat. reflexivity.
    + destruct (IH (h ++ [bufio.WriteCall l])) as [j Hj].
      exists (S j). rewrite Hj, <- app_assoc. reflexivity.
Qed.

Lemma wrote_accepts (self : Writer) (ls : list bytes) :
  accepts_every_Write (w self) ->
  err self = None ->
  wrote self ls = emit self ls.
Proof.
  intros Acc E. unfold wrote, emit. rewrite (written_accepts _ ls Acc).
  simpl. now rewrite E.
Qed.

Lemma wrote_None (self : Writer) (ls : list bytes) :
  err self = None ->
  err (wrote self ls) = None ->
  wrote self ls = emit self ls.
Proof.
  intros E N. unfold wrote, emit in *. simpl in N.
  rewrite (written_None _ ls _ N), N, E. reflexivity.
Qed.

Lemma wrote_stopped (self : Writer) (k : nat) (ls more : list bytes) (e : error) :
  err (wrote self (firstn k ls)) = Some e ->
  wrote self (ls ++ more) = wrote self (firstn k ls).
Proof.
  intros S. rewrite <- (firstn_skipn k ls) at 1.
  rewrite <- app_assoc, wrote_app, S. reflexivity.
Qed.

Lemma wrote_frame (self : Writer) (ls : list bytes) :
  m (wrote self ls) = m self /\
  bufio.respond (w (wrote self ls)) = bufio.respond (w self).
Proof. split; reflexivity. Qed.

Section DrainRuns.

Context {V : Type}.
Variable appends : body V.

(** The lines of a batch, one per point. *)
Definition lines_of (a : tsdb.Array V) : list bytes :=
  map (rendered appends) (pairs a).

Lemma range_batch (self : Writer) (buf : local) (a : tsdb.Array V) :
  err self = None ->
  match range_Timestamps appends self buf a (tsdb.Timestamps a) 0 with
  | Through s _ => alike s (wrote self (lines_of a)) /\ err s = None /\ parallel a
  | Return_ s =>
      exists k e, alike s (wrote self (firstn k (lines_of a))) /\ err s = Some e
  | Panic_ s =>
      alike s (wrote self (lines_of a)) /\ err s = None /\
      (length (tsdb.Values a) < length (tsdb.Timestamps a))%nat
  end.
Proof.
  intros E. exact (range_written appends (tsdb.Timestamps a) self buf a 0 E).
Qed.

(** The outer loop touches neither the mode nor the way the sink
    answers. *)
Lemma drain_frame (batches : list (tsdb.Array V)) :
  forall self buf n,
    let s := fst (state_of (drain appends self buf batches n)) in
    m s = m self /\ bufio.respond (w s) = bufio.respond (w self).
Proof.
  induction batches as [|a rest IH]; intros self buf n; simpl; [auto|].
  destruct (tsdb.Len a =? 0)%nat; simpl; [auto|].
  pose proof (range_frame appends (tsdb.Timestamps a) self buf a 0) as F.
  destruct (range_Timestamps appends self buf a (tsdb.Timestamps a) 0)
    as [s b|s|s]; simpl in *; auto.
  destruct (IH s b (S n)) as (Hm & Hr).
  destruct F as (Fm & Fr).
  split; congruence.
Qed.

(** The latch through a drain: when the drain leaves it set, the drain
    returned (it did not panic), the failed [Write] is the last call the
    sink received, the latch holds that call's error, and the batches
    behind the one being written are still in the cursor, never fetched. *)
Lemma drain_latch (batches : list (tsdb.Array V)) :
  forall self buf n e,
    err self = None ->
    err (fst (state_of (drain appends self buf batches n))) = Some e ->
    has_panicked (drain appends self buf batches n) = false /\
    (exists pre p,
        bufio.received (w (fst (state_of (drain appends self buf batches n)))) =
        pre ++ [bufio.WriteCall p] /\
        bufio.respond (w self) pre (bufio.WriteCall p) = Some e) /\
    (exists done a rest,
        batches = done ++ a :: rest /\
        snd (state_of (drain appends self buf batches n)) =
        tsdb.mkCursor rest (n + length done + 1)).
Proof.
  induction batches as [|a rest IH]; intros self buf n e E; simpl.
  - congruence.
  - destruct (tsdb.Len a =? 0)%nat; simpl; [congruence|].
    pose proof (range_latch appends (tsdb.Timestamps a) self buf a 0 E) as L.
    pose proof (range_frame appends (tsdb.Timestamps a) self buf a 0) as F.
    destruct (range_Timestamps appends self buf a (tsdb.Timestamps a) 0)
      as [s b|s|s]; simpl in *.
    + intros Hs.
      destruct (IH s b (S n) e L Hs)
        as (Hp & (pre & p & Hr & Hf) & (done & a' & rest' & Hb & Hc)).
      split; [exact Hp|]. split.
      * exists pre, p. split; [exact Hr|].
        destruct F as (_ & Fr). now rewrite <- Fr.
      * exists (a :: done), a', rest'. split; [now rewrite Hb|].
        rewrite Hc. simpl. f_equal. lia.
    + intros Hs. destruct L as (pre & p & e' & Hr & Hf & He).
      split; [reflexivity|]. split.
      * exists pre, p. split; [exact Hr|].
        destruct F as (_ & Fr). rewrite <- Fr. congruence.
      * exists [], a, rest. split; [reflexivity|]. simpl. f_equal. lia.
    + congruence.
Qed.

(** Whatever the sink and the batches, a drain is the plain writing of the
    first lines of the stream, up to some line. *)
Lemma drain_written (batches : list (tsdb.Array V)) :
  forall self buf n,
    err self = None ->
    exists k,
      alike (fst (state_of (drain appends self buf batches n)))
            (wrote self (firstn k (flat_map lines_of (stream batches)))).
Proof.
  induction batches as [|a rest IH]; intros self buf n E; simpl.
  - exists 0%nat. simpl. rewrite (wrote_nil self E). apply alike_refl.
  - destruct (tsdb.Len a =? 0)%nat; simpl.
    + exists 0%nat. simpl. rewrite (wrote_nil self E). apply alike_refl.
    + pose proof (range_batch self buf a E) as R.
      destruct (range_Timestamps appends self buf a (tsdb.Timestamps a) 0)
        as [s b|s|s]; simpl.
      * destruct R as (A & Es & _).
        destruct (IH s b (S n) Es) as [k Hk].
        exists (length (lines_of a) + k)%nat.
        rewrite firstn_app_2, wrote_app.
        destruct A as (Aw & Ae & Am). rewrite <- Ae, Es.
        eapply alike_trans; [exact Hk|].
        apply alike_wrote. repeat split; assumption.
      * destruct R as (k & e & A & _).
        destruct (firstn_app_prefix k (lines_of a)
                    (flat_map lines_of (stream rest))) as [k' Hk'].
        exists k'. now rewrite <- Hk'.
      * destruct R as (A & _ & _).
        destruct (firstn_app_prefix (length (lines_of a)) (lines_of a)
                    (flat_map lines_of (stream rest))) as [k' Hk'].
        exists k'. rewrite <- Hk', firstn_all. exact A.
Qed.

(** With a value for every timestamp, a drain is the plain writing of the
    lines of the stream, and does not panic. *)
Lemma drain_wrote (batches : list (tsdb.Array V)) :
  forall self buf n,
    err self = None ->
    Forall parallel (stream batches) ->
    alike (fst (state_of (drain appends self buf batches n)))
          (wrote self (flat_map lines_of (stream batches))) /\
    has_panicked (drain appends self buf batches n) = false.
Proof.
  induction batches as [|a rest IH]; intros self buf n E Par; simpl.
  - rewrite (wrote_nil self E). split; [apply alike_refl | reflexivity].
  - destruct (tsdb.Len a =? 0)%nat eqn:L; simpl.
    + rewrite (wrote_nil self E). split; [apply alike_refl | reflexivity].
    + simpl in Par. rewrite L in Par. inversion Par as [|? ? Pa Prest]; subst.
      pose proof (range_batch self buf a E) as R.
      destruct (range_Timestamps appends self buf a (tsdb.Timestamps a) 0)
        as [s b|s|s]; cbn [state_of fst snd has_panicked].
      * destruct R as (A & Es & _).
        destruct (IH s b (S n) Es Prest) as [Hk Hp].
        split; [|exact Hp].
        rewrite wrote_app.
        pose proof A as (Aw & Ae & Am). rewrite <- Ae, Es.
        eapply alike_trans; [exact Hk|]. now apply alike_wrote.
      * destruct R as (k & e & A & Es). split; [|reflexivity].
        rewrite (wrote_stopped self k (lines_of a) _ e); [exact A|].
        destruct A as (_ & Ae & _). congruence.
      * destruct R as (_ & _ & Short). unfold parallel in Pa. lia.
Qed.

End DrainRuns.

Section DrainEndings.

Context {V : Type}.
Variable appends : body V.

(** A drain that returns with the latch unset has written every line of
    the stream, found a value for every timestamp, and left the cursor
    behind the batch of length zero that ended the stream. *)
Lemma drain_success (batches : list (tsdb.Array V)) :
  forall self buf n s c,
    err self = None ->
    drain appends self buf batches n = Returned (s, c) ->
    err s = None ->
    alike s (emit self (flat_map (lines_of appends) (stream batches))) /\
    c = tsdb.mkCursor (beyond batches) (n + length (stream batches) + 1) /\
    Forall parallel (stream batches).
Proof.
  induction batches as [|a rest IH]; intros self buf n s c E R Es; simpl in R |- *.
  - injection R as <- <-. rewrite emit_nil.
    repeat split; [f_equal; lia | constructor].
  - destruct (tsdb.Len a =? 0)%nat; simpl.
    + injection R as <- <-. rewrite emit_nil.
      repeat split; [f_equal; lia | constructor].
    + pose proof (range_batch appends self buf a E) as B.
      destruct (range_Timestamps appends self buf a (tsdb.Timestamps a) 0)
        as [s1 b1|s1|s1].
      * destruct B as (A & E1 & Pa).
        destruct (IH _ _ _ _ _ E1 R Es) as (A' & -> & Par).
        split; [|split; [f_equal; lia | constructor; assumption]].
        rewrite <- emit_app.
        eapply alike_trans; [exact A'|]. apply alike_emit.
        rewrite <- (wrote_None self (lines_of appends a) E); [exact A|].
        destruct A as (_ & Ae & _). congruence.
      * injection R as <- <-. destruct B as (k & e & _ & He). congruence.
      * discriminate.
Qed.

(** On a sink that takes every write, with a value for every timestamp, a
    drain returns having written every line of the stream. *)
Lemma drain_reliable (batches : list (tsdb.Array V)) (self : Writer)
    (buf : local) (n : nat) :
  accepts_every_Write (w self) ->
  err self = None ->
  Forall parallel (stream batches) ->
  exists k,
    drain appends self buf batches n =
    Returned (set_key (emit self (flat_map (lines_of appends) (stream batches))) k,
              tsdb.mkCursor (beyond batches) (n + length (stream batches) + 1)).
Proof.
  intros Acc E Par.
  destruct (drain_wrote appends batches self buf n E Par) as [A P].
  rewrite (wrote_accepts self _ Acc E) in A.
  destruct (drain appends self buf batches n) as [[s c]|[s c]] eqn:D;
    [|discriminate].
  simpl in A.
  assert (Es : err s = None) by (destruct A as (_ & -> & _); exact E).
  destruct (drain_success batches self buf n s c E D Es) as (_ & -> & _).
  exists (key s). now rewrite <- (alike_set_key s _ A).
Qed.

(** On a sink that takes every write, a batch with fewer values than
    timestamps makes the drain panic, after the lines of the batches
    before it and of the values it has. *)
Lemma drain_short (done : list (tsdb.Array V)) :
  forall self buf n a rest,
    accepts_every_Write (w self) ->
    err self = None ->
    Forall (fun b => tsdb.Len b <> 0%nat /\ parallel b) done ->
    (length (tsdb.Values a) < length (tsdb.Timestamps a))%nat ->
    exists k,
      drain appends self buf (done ++ a :: rest) n =
      Panicked
        (set_key (emit self (flat_map (lines_of appends) done ++ lines_of appends a)) k,
         tsdb.mkCursor rest (n + length done + 1)).
Proof.
  induction done as [|d done IH]; intros self buf n a rest Acc E Ok Short; simpl.
  - assert (L : (tsdb.Len a =? 0)%nat = false).
    { apply Nat.eqb_neq. unfold tsdb.Len. lia. }
    rewrite L. pose proof (range_batch appends self buf a E) as B.
    destruct (range_Timestamps appends self buf a (tsdb.Timestamps a) 0)
      as [s1 b1|s1|s1].
    + destruct B as (_ & _ & Pa). unfold parallel in Pa. lia.
    + destruct B as (k & e & A & He).
      rewrite (wrote_accepts self _ Acc E) in A.
      destruct A as (_ & Ae & _). simpl in Ae. congruence.
    + destruct B as (A & _ & _). rewrite (wrote_accepts self _ Acc E) in A.
      exists (key s1). rewrite <- (alike_set_key s1 _ A).
      do 3 f_equal. lia.
  - inversion Ok as [|? ? [Ld Pd] Ok']; subst.
    apply Nat.eqb_neq in Ld. rewrite Ld.
    pose proof (range_batch appends self buf d E) as B.
    destruct (range_Timestamps appends self buf d (tsdb.Timestamps d) 0)
      as [s1 b1|s1|s1].
    + destruct B as (A & E1 & _). rewrite (wrote_accepts self _ Acc E) in A.
      assert (Acc1 : accepts_every_Write (w s1)).
      { destruct A as (-> & _ & _). exact Acc. }
      destruct (IH s1 b1 (S n) a rest Acc1 E1 Ok' Short) as [k Hk].
      exists k. rewrite Hk. f_equal. f_equal.
      * rewrite (set_key_emit_alike s1 _ _ k A), emit_app, app_assoc.
        reflexivity.
      * f_equal. lia.
    + destruct B as (k & e & A & He).
      rewrite (wrote_accepts self _ Acc E) in A.
      destruct A as (_ & Ae & _). simpl in Ae. congruence.
    + destruct B as (_ & _ & Sd). unfold parallel in Pd. lia.
Qed.

(** What the sink receives from a drain is [Write] calls only, one per
    line of the stream, in order, up to some line. *)
Lemma drain_prefix (batches : list (tsdb.Array V)) (self : Writer)
    (buf : local) (n : nat) :
  err self = None ->
  exists k,
    bufio.received (w (fst (state_of (drain appends self buf batches n)))) =
    bufio.received (w self) ++
    map bufio.WriteCall (firstn k (flat_map (lines_of appends) (stream batches))).
Proof.
  intros E. destruct (drain_written appends batches self buf n E) as [k (Aw & _ & _)].
  rewrite Aw. unfold wrote. simpl.
  destruct (written_received (bufio.respond (w self))
              (firstn k (flat_map (lines_of appends) (stream batches)))
              (bufio.received (w self))) as [j Hj].
  exists (Nat.min j k). now rewrite Hj, firstn_firstn.
Qed.

(** The guard of a typed Write method: latched, or in [Series] mode, it
    returns at once, the encoder and the cursor as they were. *)
Lemma WriteCursor_guard (self : Writer) (cur : tsdb.Cursor V) :
  not_nil (err self) || Bool.eqb (m self) Series = true ->
  WriteCursor appends self cur = Returned (self, cur).
Proof.
  intros G. unfold WriteCursor. now rewrite G.
Qed.

Lemma WriteCursor_frame (self : Writer) (cur : tsdb.Cursor V) :
  let s := fst (state_of (WriteCursor appends self cur)) in
  m s = m self /\ bufio.respond (w s) = bufio.respond (w self).
Proof.
  unfold WriteCursor.
  destruct (not_nil (err self) || Bool.eqb (m self) Series); simpl; [auto|].
  apply drain_frame.
Qed.

Lemma guard_false (self : Writer) :
  not_nil (err self) || Bool.eqb (m self) Series = false ->
  err self = None /\ m self = Values.
Proof.
  destruct self as [ws ks [e|] [|]]; simpl; intros G;
    try discriminate; auto.
Qed.

Lemma WriteCursor_latch (self : Writer) (cur : tsdb.Cursor V) (e : error) :
  err self = None ->
  err (fst (state_of (WriteCursor appends self cur))) = Some e ->
  has_panicked (WriteCursor appends self cur) = false /\
  (exists pre p,
      bufio.received (w (fst (state_of (WriteCursor appends self cur)))) =
      pre ++ [bufio.WriteCall p] /\
      bufio.respond (w self) pre (bufio.WriteCall p) = Some e) /\
  (exists done a rest,
      tsdb.pending cur = done ++ a :: rest /\
      snd (state_of (WriteCursor appends self cur)) =
      tsdb.mkCursor rest (tsdb.fetched cur + length done + 1)).
Proof.
  intros E. unfold WriteCursor. rewrite E. simpl.
  destruct (Bool.eqb (m self) Series); simpl; [congruence|].
  now apply drain_latch.
Qed.

(** Whatever the sink and the batches, a typed Write method on an encoder
    that is not latched is the plain writing of the first lines of the
    stream, up to some line. *)
Lemma WriteCursor_written (self : Writer) (cur : tsdb.Cursor V) :
  err self = None ->
  exists k,
    alike (fst (state_of (WriteCursor appends self cur)))
          (wrote self (firstn k (map (rendered appends)
                                     (flat_map pairs (stream (tsdb.pending cur)))))).
Proof.
  intros E. unfold WriteCursor.
  destruct (not_nil (err self) || Bool.eqb (m self) Series); simpl.
  - exists 0%nat. simpl. rewrite (wrote_nil self E). apply alike_refl.
  - destruct (drain_written appends (tsdb.pending cur) self
                (OnKey (length (key self))) (tsdb.fetched cur) E) as [k Hk].
    exists k. unfold lines_of in Hk. now rewrite flat_map_lines in Hk.
Qed.

Lemma WriteCursor_prefix (self : Writer) (cur : tsdb.Cursor V) :
  exists k,
    bufio.received (w (fst (state_of (WriteCursor appends self cur)))) =
    bufio.received (w self) ++
    map bufio.WriteCall
      (firstn k (map (rendered appends)
                     (flat_map pairs (stream (tsdb.pending cur))))).
Proof.
  unfold WriteCursor.
  destruct (not_nil (err self) || Bool.eqb (m self) Series) eqn:G; simpl.
  - exists 0%nat. simpl. now rewrite app_nil_r.
  - destruct (guard_false self G) as [E _].
    destruct (drain_prefix (tsdb.pending cur) self (OnKey (length (key self)))
                (tsdb.fetched cur) E) as [k Hk].
    exists k. rewrite Hk. unfold lines_of. now rewrite flat_map_lines.
Qed.

(** A typed Write method in [Values] mode, not latched, on a sink that takes
    every [Write] and a cursor whose batches have a value for every
    timestamp: it returns, having written one line per point of the
    stream, in order, each with one [Write]; the cursor is left behind the
    batch of length zero that ended the stream. *)
Lemma WriteCursor_reliable (self : Writer) (cur : tsdb.Cursor V) :
  m self = Values ->
  err self = None ->
  accepts_every_Write (w self) ->
  Forall parallel (stream (tsdb.pending cur)) ->
  exists k,
    WriteCursor appends self cur =
    Returned
      (set_key (emit self (map (rendered appends)
                               (flat_map pairs (stream (tsdb.pending cur))))) k,
       tsdb.mkCursor (beyond (tsdb.pending cur))
         (tsdb.fetched cur + length (stream (tsdb.pending cur)) + 1)).
Proof.
  intros M E Acc Par. unfold WriteCursor. rewrite E, M. simpl.
  destruct (drain_reliable (tsdb.pending cur) self (OnKey (length (key self)))
              (tsdb.fetched cur) Acc E Par) as [k Hk].
  exists k. rewrite Hk. unfold lines_of. now rewrite flat_map_lines.
Qed.

(** A typed Write method in [Values] mode, not latched, on a cursor whose
    first fetch gives a batch of length zero: one fetch, and the encoder is
    as it was. *)
Lemma WriteCursor_empty (self : Writer) (cur : tsdb.Cursor V) :
  m self = Values ->
  err self = None ->
  tsdb.Len (fst (tsdb.Next cur)) = 0%nat ->
  WriteCursor appends self cur = Returned (self, snd (tsdb.Next cur)).
Proof.
  intros M E L. unfold WriteCursor. rewrite E, M. simpl.
  rewrite drain_Next. destruct (tsdb.Next cur) as [a cur']. simpl in *.
  now rewrite L.
Qed.

End DrainEndings.

(** * Facts about calls and call sequences *)

(** The encoder after its sink was flushed [k] times. *)
Definition flushed (self : Writer) (k : nat) : Writer :=
  mkWriter
    (bufio.mkWriter (bufio.received (w self) ++ repeat bufio.FlushCall k)
                    (bufio.respond (w self)))
    (key self) (err self) (m self).

Lemma flushed_0 (self : Writer) : flushed self 0 = self.
Proof.
  destruct self as [[rcv rsp] k e md]. unfold flushed. simpl.
  now rewrite app_nil_r.
Qed.

Lemma flushed_S (self : Writer) (k : nat) :
  flushed (fst (Close self)) k = flushed self (S k).
Proof.
  unfold flushed, Close. simpl. now rewrite <- app_assoc.
Qed.

Lemma output_flushed (self : Writer) (k : nat) :
  bufio.output (w (flushed self k)) = bufio.output (w self).
Proof.
  unfold bufio.output, flushed. simpl. rewrite flat_map_app.
  replace (flat_map bufio.payload (repeat bufio.FlushCall k)) with (@nil byte).
  - apply app_nil_r.
  - induction k as [|k IH]; simpl; [reflexivity | exact IH].
Qed.

Section CallFacts.

Context `{Imports}.

(** How many times a call sequence closes the encoder. *)
Definition closes (ops : list op) : nat :=
  length (filter (fun o => match o with CallClose => true | _ => false end) ops).

Lemma with_cursor_state {V : Type} (mk : tsdb.Cursor V -> op)
    (o : outcome (Writer * tsdb.Cursor V)) :
  fst (state_of (with_cursor mk o)) = fst (state_of o) /\
  snd (state_of (with_cursor mk o)) = mk (snd (state_of o)) /\
  has_panicked (with_cursor mk o) = has_panicked o.
Proof.
  destruct o as [[s c]|[s c]]; simpl; auto.
Qed.

Lemma with_cursor_guard {V : Type} (appends : body V)
    (mk : tsdb.Cursor V -> op) (self : Writer) (cur : tsdb.Cursor V) :
  not_nil (err self) || Bool.eqb (m self) Series = true ->
  with_cursor mk (WriteCursor appends self cur) = Returned (self, mk cur).
Proof.
  intros G. now rewrite (WriteCursor_guard appends self cur G).
Qed.

(** Behind the guard a typed Write call changes nothing at all. *)
Lemma exec_guard (self : Writer) (o : op) :
  is_typed_write o = true ->
  not_nil (err self) || Bool.eqb (m self) Series = true ->
  exec self o = Returned (self, o).
Proof.
  intros T G. destruct o; simpl in T; try discriminate; simpl;
    unfold WriteIntegerCursor, WriteFloatCursor, WriteUnsignedCursor,
      WriteBooleanCursor, WriteStringCursor;
    now apply with_cursor_guard.
Qed.

(** No call changes the mode or the way the sink answers. *)
Lemma exec_frame (self : Writer) (o : op) :
  let s := fst (state_of (exec self o)) in
  m s = m self /\ bufio.respond (w s) = bufio.respond (w self).
Proof.
  destruct o; simpl; auto;
    try (unfold WriteIntegerCursor, WriteFloatCursor, WriteUnsignedCursor,
           WriteBooleanCursor, WriteStringCursor;
         match goal with
         | |- context [with_cursor ?mk (WriteCursor ?l self ?c)] =>
             destruct (with_cursor_state mk (WriteCursor l self c)) as (-> & _ & _);
             destruct (WriteCursor_frame l self c) as (? & ?); auto
         end).
  unfold BeginSeries.
  destruct (not_nil (err self)); simpl; auto.
  destruct (Bool.eqb (m self) Series); simpl; auto.
Qed.

Lemma encoder_after_cons (self : Writer) (o : op) (rest : list op) :
  encoder_after self (o :: rest) =
  match exec self o with
  | Returned (s, _) => encoder_after s rest
  | Panicked (s, _) => s
  end.
Proof.
  unfold encoder_after. simpl.
  destruct (exec self o) as [[s o']|[s o']]; simpl; [|reflexivity].
  destruct (run s rest) as [[s' r']|[s' r']]; reflexivity.
Qed.

Lemma has_panicked_cons (self : Writer) (o : op) (rest : list op) :
  has_panicked (run self (o :: rest)) =
  match exec self o with
  | Returned (s, _) => has_panicked (run s rest)
  | Panicked _ => true
  end.
Proof.
  simpl.
  destruct (exec self o) as [[s o']|[s o']]; simpl; [|reflexivity].
  destruct (run s rest) as [[s' r']|[s' r']]; reflexivity.
Qed.

Lemma run_mode (ops : list op) :
  forall self, m (encoder_after self ops) = m self.
Proof.
  induction ops as [|o rest IH]; intros self; [reflexivity|].
  rewrite encoder_after_cons.
  destruct (exec_frame self o) as [Hm _].
  destruct (exec self o) as [[s o']|[s o']]; simpl in Hm.
  - now rewrite IH.
  - exact Hm.
Qed.

(** Calls that do nothing where the invariant [P] holds can be left out of
    a call sequence: the encoder it ends with is the same, and it panics
    or not as before. *)
Lemma run_skip (P : Writer -> Prop) (skip : op -> bool) :
  (forall self o, P self -> P (fst (state_of (exec self o)))) ->
  (forall self o, P self -> skip o = true -> exec self o = Returned (self, o)) ->
  forall ops self,
    P self ->
    encoder_after self ops =
      encoder_after self (filter (fun o => negb (skip o)) ops) /\
    has_panicked (run self ops) =
      has_panicked (run self (filter (fun o => negb (skip o)) ops)).
Proof.
  intros Pres Skip. induction ops as [|o rest IH]; intros self HP.
  - split; reflexivity.
  - cbn [filter]. destruct (skip o) eqn:S; cbn [negb].
    + rewrite encoder_after_cons, has_panicked_cons, (Skip self o HP S).
      apply IH, HP.
    + rewrite !encoder_after_cons, !has_panicked_cons.
      specialize (Pres self o HP).
      destruct (exec self o) as [[s o']|[s o']]; simpl in Pres.
      * apply IH, Pres.
      * split; reflexivity.
Qed.

(** A latched encoder: every call returns, the cursors are as they were,
    and the sink receives nothing but the flush of each [Close]. *)
Lemma exec_latched (self : Writer) (o : op) :
  not_nil (err self) = true ->
  exec self o =
  Returned (match o with CallClose => fst (Close self) | _ => self end, o).
Proof.
  intros L.
  destruct o; try reflexivity;
    try (apply exec_guard; [reflexivity | now rewrite L]).
  simpl. unfold BeginSeries. now rewrite L.
Qed.

Lemma run_latched (ops : list op) :
  forall self,
    not_nil (err self) = true ->
    run self ops = Returned (flushed self (closes ops), ops).
Proof.
  induction ops as [|o rest IH]; intros self L.
  - simpl. now rewrite flushed_0.
  - cbn [run]. rewrite (exec_latched self o L).
    destruct o; try (rewrite (IH self L); reflexivity).
    rewrite (IH (fst (Close self)) L).
    rewrite flushed_S. reflexivity.
Qed.

End CallFacts.

(** * Encoders that cannot be told apart

    Two sinks are the same to the encoder when they have received the same
    calls and answer every call alike; two encoders, when their sinks are
    and their other fields are equal. *)

Definition same_sink (b1 b2 : bufio.Writer) : Prop :=
  bufio.received b1 = bufio.received b2 /\
  forall h c, bufio.respond b1 h c = bufio.respond b2 h c.

Definition same_encoder (s1 s2 : Writer) : Prop :=
  same_sink (w s1) (w s2) /\ key s1 = key s2 /\ err s1 = err s2 /\ m s1 = m s2.

Definition same_flow (r1 r2 : flow) : Prop :=
  match r1, r2 with
  | Through s1 b1, Through s2 b2 => same_encoder s1 s2 /\ b1 = b2
  | Return_ s1, Return_ s2 => same_encoder s1 s2
  | Panic_ s1, Panic_ s2 => same_encoder s1 s2
  | _, _ => False
  end.

Definition same_outcome {A : Type} (o1 o2 : outcome (Writer * A)) : Prop :=
  match o1, o2 with
  | Returned (s1, a1), Returned (s2, a2) => same_encoder s1 s2 /\ a1 = a2
  | Panicked (s1, a1), Panicked (s2, a2) => same_encoder s1 s2 /\ a1 = a2
  | _, _ => False
  end.

Section SameFacts.

Context {V : Type}.
Variable appends : body V.

Lemma write_point_same (s1 s2 : Writer) (buf : local) (v : V) (t : Z) :
  same_encoder s1 s2 ->
  same_encoder (fst (write_point appends s1 buf v t))
               (fst (write_point appends s2 buf v t)) /\
  snd (write_point appends s1 buf v t) = snd (write_point appends s2 buf v t).
Proof.
  intros ((R & F) & K & E & M). unfold write_point, open_line. rewrite K.
  destruct (appends_to (key s2) (cut0 buf) (opening appends)) as [k0 b0].
  destruct (appends_to k0 b0 (closing appends v t)) as [k b]. simpl.
  rewrite R, F, M. repeat split. simpl. exact F.
Qed.

Lemma range_same (ts : list Z) :
  forall s1 s2 buf a i,
    same_encoder s1 s2 ->
    same_flow (range_Timestamps appends s1 buf a ts i)
              (range_Timestamps appends s2 buf a ts i).
Proof.
  induction ts as [|t ts IH]; intros s1 s2 buf a i Sm; cbn [range_Timestamps].
  - simpl. auto.
  - destruct (nth_error (tsdb.Values a) i) as [v|].
    2:{ destruct Sm as (Sw & K & E & M). unfold open_line. rewrite K.
        repeat split; simpl; auto; apply Sw. }
    destruct (write_point_same s1 s2 buf v t Sm) as [Sm' Sb].
    destruct (write_point appends s1 buf v t) as [t1 b1],
             (write_point appends s2 buf v t) as [t2 b2].
    simpl in Sm', Sb. subst b2.
    pose proof Sm' as (_ & _ & Ee & _). rewrite Ee.
    destruct (not_nil (err t2)); [exact Sm' | now apply IH].
Qed.

Lemma drain_same (batches : list (tsdb.Array V)) :
  forall s1 s2 buf n,
    same_encoder s1 s2 ->
    same_outcome (drain appends s1 buf batches n) (drain appends s2 buf batches n).
Proof.
  induction batches as [|a rest IH]; intros s1 s2 buf n Sm; simpl.
  - auto.
  - destruct (tsdb.Len a =? 0)%nat; simpl; [auto|].
    pose proof (range_same (tsdb.Timestamps a) s1 s2 buf a 0 Sm) as R.
    destruct (range_Timestamps appends s1 buf a (tsdb.Timestamps a) 0)
      as [t1 b1|t1|t1],
      (range_Timestamps appends s2 buf a (tsdb.Timestamps a) 0)
      as [t2 b2|t2|t2]; simpl in R |- *; try contradiction; auto.
    destruct R as [R ->]. apply IH, R.
Qed.

Lemma WriteCursor_same (s1 s2 : Writer) (cur : tsdb.Cursor V) :
  same_encoder s1 s2 ->
  same_outcome (WriteCursor appends s1 cur) (WriteCursor appends s2 cur).
Proof.
  intros Sm. unfold WriteCursor.
  destruct Sm as (Sw & K & E & M). rewrite E, M, K.
  destruct (not_nil (err s2) || Bool.eqb (m s2) Series); simpl.
  - repeat split; auto; apply Sw.
  - apply drain_same. repeat split; auto; apply Sw.
Qed.

End SameFacts.

Section SameCalls.

Context `{Imports}.

Lemma with_cursor_same {V : Type} (mk : tsdb.Cursor V -> op)
    (o1 o2 : outcome (Writer * tsdb.Cursor V)) :
  same_outcome o1 o2 -> same_outcome (with_cursor mk o1) (with_cursor mk o2).
Proof.
  destruct o1 as [[s1 c1]|[s1 c1]], o2 as [[s2 c2]|[s2 c2]]; simpl;
    try contradiction; intros [Sm ->]; auto.
Qed.

Lemma BeginSeries_same (s1 s2 : Writer) name field typ tags :
  same_encoder s1 s2 ->
  same_encoder (BeginSeries s1 name field typ tags)
               (BeginSeries s2 name field typ tags).
Proof.
  intros Sm. unfold BeginSeries.
  pose proof Sm as (Sw & K & E & M). rewrite E, M.
  destruct (not_nil (err s2)); [exact Sm|].
  destruct (Bool.eqb (m s2) Series); [|exact Sm].
  destruct Sw as [R F]. simpl. repeat split; simpl; auto; congruence.
Qed.

Lemma Close_same (s1 s2 : Writer) :
  same_encoder s1 s2 ->
  same_encoder (fst (Close s1)) (fst (Close s2)) /\
  snd (Close s1) = snd (Close s2).
Proof.
  intros ((R & F) & K & E & M). unfold Close. simpl.
  repeat split; simpl; auto; try congruence.
Qed.

Lemma exec_same (s1 s2 : Writer) (o : op) :
  same_encoder s1 s2 -> same_outcome (exec s1 o) (exec s2 o).
Proof.
  intros Sm. destruct o; simpl; auto;
    try (apply with_cursor_same, WriteCursor_same, Sm).
  - split; [now apply BeginSeries_same | reflexivity].
  - split; [now apply Close_same | reflexivity].
Qed.

Lemma run_same (ops : list op) :
  forall s1 s2,
    same_encoder s1 s2 -> same_outcome (run s1 ops) (run s2 ops).
Proof.
  induction ops as [|o rest IH]; intros s1 s2 Sm; simpl; [auto|].
  pose proof (exec_same s1 s2 o Sm) as E.
  destruct (exec s1 o) as [[t1 o1]|[t1 o1]], (exec s2 o) as [[t2 o2]|[t2 o2]];
    simpl in E; try contradiction; destruct E as [E ->]; [|simpl; auto].
  specialize (IH t1 t2 E).
  destruct (run t1 rest) as [[u1 r1]|[u1 r1]], (run t2 rest) as [[u2 r2]|[u2 r2]];
    simpl in IH; try contradiction; destruct IH as [U ->]; simpl; auto.
Qed.

End SameCalls.
(** * The rendering of values *)

(** A decimal numeral, printed and read back, has the value it had. *)
Lemma int_of_string_of_int (d : Decimal.int) :
  option_map Z.of_int (NilZero.int_of_string (NilZero.string_of_int d)) =
  Some (Z.of_int d).
Proof.
  destruct d as [u|u]; destruct u;
    try (rewrite NilZero.isi by discriminate; reflexivity).
  - rewrite NilZero.isi_posnil. reflexivity.
  - rewrite NilZero.isi_negnil. reflexivity.
Qed.

(** A numeral written by [FormatInt] reads back as the number. *)
Lemma ParseInt_FormatInt (i : Z) :
  strconv.ParseInt (strconv.FormatInt i) = Some i.
Proof.
  unfold strconv.ParseInt, strconv.FormatInt.
  rewrite string_of_list_byte_of_string, int_of_string_of_int.
  f_equal. apply DecimalZ.of_to.
Qed.

(** Hence two numbers with the same numeral are equal. *)
Lemma FormatInt_inj (i j : Z) :
  strconv.FormatInt i = strconv.FormatInt j -> i = j.
Proof.
  intros E. pose proof (ParseInt_FormatInt i) as Pi.
  rewrite E, ParseInt_FormatInt in Pi. now injection Pi.
Qed.


(** The escaping keeps the bytes that are neither a double quote nor a
    backslash and puts a backslash before each of those. *)
Lemma EscapeStringField_app (s1 s2 : bytes) :
  models.EscapeStringField (s1 ++ s2) =
  models.EscapeStringField s1 ++ models.EscapeStringField s2.
Proof.
  induction s1 as [|c s1 IH]; simpl; [reflexivity|].
  destruct (Byte.eqb c x22); [now rewrite IH|].
  destruct (Byte.eqb c x5c); now rewrite IH.
Qed.

(** * The claims *)

(** A fresh encoder in [Values] mode on a sink that never fails. *)
Definition values_encoder : Writer :=
  NewWriter (Unbuffered bufio.reliable) Values.

(** A fresh encoder in [Series] mode on a sink that never fails. *)
Definition series_encoder : Writer :=
  NewWriter (Unbuffered bufio.reliable) Series.

(** The integer cursor of the spec's example, as one batch of two points
    and as two batches of one point. *)
Definition integer_example : tsdb.IntegerArrayCursor :=
  tsdb.NewCursor [tsdb.points [(10, 100); (20, 200)]].

Definition integer_example_split : tsdb.IntegerArrayCursor :=
  tsdb.NewCursor [tsdb.points [(10, 100)]; tsdb.points [(20, 200)]].

(** The string cursor of the spec's example: at 7, the value a, double
    quote, b. *)
Definition string_example : tsdb.StringArrayCursor :=
  tsdb.NewCursor [tsdb.points [(7, ["a"%byte; x22; "b"%byte])]].

(** The line of an integer point as the spec words it: the base-10 signed
    value, [i], a space, the base-10 signed timestamp, a newline. *)
Definition spec_integer_line (p : Z * Z) : bytes :=
  strconv.FormatInt (snd p) ++ ["i"%byte; " "%byte] ++
  strconv.FormatInt (fst p) ++ [x0a].

(** The line of a string point as the spec words it: the escaped value
    between double quotes, a space, the base-10 timestamp, a newline. *)
Definition spec_string_line (p : Z * bytes) : bytes :=
  [x22] ++ models.EscapeStringField (snd p) ++ [x22; " "%byte] ++
  strconv.FormatInt (fst p) ++ [x0a].

(** The points a cursor gives before the batch of length zero that ends
    its stream, in arrival order across the batches. *)
Definition points_of {V : Type} (cur : tsdb.Cursor V) : list (Z * V) :=
  flat_map pairs (stream (tsdb.pending cur)).

(** The appends of the integer loop body make the line of the spec. *)
Lemma integer_line_eq (p : Z * Z) :
  rendered integer_appends p = spec_integer_line p.
Proof. reflexivity. Qed.

Lemma string_line_eq (p : Z * bytes) :
  rendered string_appends p = spec_string_line p.
Proof. reflexivity. Qed.

(** The scratch slice of a fresh encoder after the integer example: the
    last line, written over the front of the 1024 zero bytes. *)
Example scratch_shows_the_last_line :
  key (fst (state_of (WriteIntegerCursor values_encoder integer_example))) =
  list_byte_of_string "200i 20" ++ [x0a] ++ repeat x00 1016.
Proof. vm_compute. reflexivity. Qed.

(** The scratch slice of a fresh encoder when the string loop finds no
    value for its first timestamp: the opening quote was appended before
    the read that panicked. *)
Example scratch_shows_the_opening_quote :
  WriteStringCursor values_encoder (tsdb.NewCursor [tsdb.mkArray [7] []]) =
  Panicked (set_key values_encoder ([x22] ++ repeat x00 1023),
            tsdb.mkCursor [] 1).
Proof. vm_compute. reflexivity. Qed.

(** C3: in [Values] mode with no prior error, on a sink that takes every
    write, [WriteIntegerCursor] returns having written, for every
    (timestamp, value) pair of the stream in arrival order across the
    batches, exactly one line: the base-10 signed value, [i], a space, the
    base-10 signed timestamp, a newline; sink, latch, mode and cursor are
    stated, the scratch slice shows some bytes [k].  Whatever the sink and
    the encoder, what the sink receives is one write per line, in that
    order, up to where the method left.  The numerals read back as the
    numbers.  The batches [(t=10,v=100),(t=20,v=200)] give exactly the two
    lines [100i 10] and [200i 20], each ended by a newline. *)
Theorem WriteIntegerCursor_renders_every_pair :
  (forall (self : Writer) (cur : tsdb.IntegerArrayCursor),
      m self = Values ->
      Err self = None ->
      accepts_every_Write (w self) ->
      Forall parallel (stream (tsdb.pending cur)) ->
      exists k,
        WriteIntegerCursor self cur =
        Returned
          (set_key (emit self (map spec_integer_line (points_of cur))) k,
           tsdb.mkCursor (beyond (tsdb.pending cur))
             (tsdb.fetched cur + length (stream (tsdb.pending cur)) + 1))) /\
  (forall (self : Writer) (cur : tsdb.IntegerArrayCursor),
      exists k,
        bufio.received (w (fst (state_of (WriteIntegerCursor self cur)))) =
        bufio.received (w self) ++
        map bufio.WriteCall (firstn k (map spec_integer_line (points_of cur)))) /\
  (forall i : Z, strconv.ParseInt (strconv.FormatInt i) = Some i) /\
  bufio.output
    (w (fst (state_of (WriteIntegerCursor values_encoder integer_example)))) =
  list_byte_of_string "100i 10" ++ [x0a] ++
  list_byte_of_string "200i 20" ++ [x0a] /\
  bufio.output
    (w (fst (state_of (WriteIntegerCursor values_encoder integer_example_split)))) =
  list_byte_of_string "100i 10" ++ [x0a] ++
  list_byte_of_string "200i 20" ++ [x0a].
Proof.
  split; [|split; [|split; [exact ParseInt_FormatInt | split; vm_compute; reflexivity]]].
  - intros self cur M E Acc Par. unfold WriteIntegerCursor.
    destruct (WriteCursor_reliable integer_appends self cur M E Acc Par) as [k Hk].
    exists k. rewrite Hk. reflexivity.
  - intros self cur.
    destruct (WriteCursor_prefix integer_appends self cur) as [k Hk].
    exists k. exact Hk.
Qed.

Lemma WriteIntegerCursor_renders_every_pair_witness :
  exists k,
    WriteIntegerCursor values_encoder integer_example =
    Returned
      (set_key
         (emit values_encoder
            [list_byte_of_string "100i 10" ++ [x0a];
             list_byte_of_string "200i 20" ++ [x0a]]) k,
       tsdb.mkCursor [] 2).
Proof.
  apply (proj1 WriteIntegerCursor_renders_every_pair
           values_encoder integer_example eq_refl eq_refl).
  - intros h p. reflexivity.
  - simpl. repeat constructor.
Defined.

(** C7: in [Values] mode with no prior error, on a sink that takes every
    write, [WriteStringCursor] returns having written, for every
    (timestamp, value) pair of the stream in order, one line: a double
    quote, the value with a backslash put before each of its double quotes
    and backslashes, a double quote, a space, the base-10 timestamp, a
    newline; sink, latch, mode and cursor are stated, the scratch slice
    shows some bytes [k].  Whatever the sink and the encoder, what the sink
    receives is one write per line, in that order, up to where the method
    left.  The point (t=7, v=a, double quote, b) gives: double quote, a,
    backslash, double quote, b, double quote, space, 7, newline. *)
Theorem WriteStringCursor_quotes_and_escapes :
  (forall (self : Writer) (cur : tsdb.StringArrayCursor),
      m self = Values ->
      Err self = None ->
      accepts_every_Write (w self) ->
      Forall parallel (stream (tsdb.pending cur)) ->
      exists k,
        WriteStringCursor self cur =
        Returned
          (set_key (emit self (map spec_string_line (points_of cur))) k,
           tsdb.mkCursor (beyond (tsdb.pending cur))
             (tsdb.fetched cur + length (stream (tsdb.pending cur)) + 1))) /\
  (forall (self : Writer) (cur : tsdb.StringArrayCursor),
      exists k,
        bufio.received (w (fst (state_of (WriteStringCursor self cur)))) =
        bufio.received (w self) ++
        map bufio.WriteCall (firstn k (map spec_string_line (points_of cur)))) /\
  (forall (c : byte) (s : bytes),
      models.EscapeStringField (c :: s) =
      (if Byte.eqb c x22 || Byte.eqb c x5c then [x5c; c] else [c]) ++
      models.EscapeStringField s) /\
  bufio.output
    (w (fst (state_of (WriteStringCursor values_encoder string_example)))) =
  [x22; "a"%byte; x5c; x22; "b"%byte; x22; " "%byte; "7"%byte; x0a].
Proof.
  split; [|split; [|split; [|vm_compute; reflexivity]]].
  - intros self cur M E Acc Par. unfold WriteStringCursor.
    destruct (WriteCursor_reliable string_appends self cur M E Acc Par) as [k Hk].
    exists k. rewrite Hk. reflexivity.
  - intros self cur.
    destruct (WriteCursor_prefix string_appends self cur) as [k Hk].
    exists k. exact Hk.
  - intros c s. simpl.
    destruct (Byte.eqb c x22) eqn:Q; simpl.
    + apply Byte.byte_dec_bl in Q. now subst.
    + destruct (Byte.eqb c x5c) eqn:B; simpl; [|reflexivity].
      apply Byte.byte_dec_bl in B. now subst.
Qed.

Lemma WriteStringCursor_quotes_and_escapes_witness :
  exists k,
    WriteStringCursor values_encoder string_example =
    Returned
      (set_key
         (emit values_encoder
            [[x22; "a"%byte; x5c; x22; "b"%byte; x22; " "%byte; "7"%byte; x0a]]) k,
       tsdb.mkCursor [] 2).
Proof.
  apply (proj1 WriteStringCursor_quotes_and_escapes
           values_encoder string_example eq_refl eq_refl).
  - intros h p. reflexivity.
  - simpl. repeat constructor.
Defined.
Lemma not_nil_true (e : option error) : not_nil e = true <-> e <> None.
Proof.
  destruct e; simpl; split; congruence.
Qed.

Lemma guard_true (self : Writer) :
  Err self <> None \/ m self = Series ->
  not_nil (err self) || Bool.eqb (m self) Series = true.
Proof.
  intros [L|M].
  - apply not_nil_true in L. unfold Err in L. now rewrite L.
  - rewrite M. apply orb_true_r.
Qed.

(** In a plain writing that no error stopped, every write succeeded. *)
Lemma written_None_each (rsp : bufio.behaviour) (ls : list bytes) :
  forall h,
    snd (written rsp h ls) = None ->
    forall j x,
      nth_error ls j = Some x ->
      rsp (h ++ map bufio.WriteCall (firstn j ls)) (bufio.WriteCall x) = None.
Proof.
  induction ls as [|l ls IH]; intros h N j x Hj.
  - destruct j; discriminate.
  - simpl in N. destruct (rsp h (bufio.WriteCall l)) eqn:R; [discriminate|].
    destruct j as [|j]; simpl in Hj |- *.
    + injection Hj as <-. now rewrite app_nil_r.
    + specialize (IH _ N j x Hj). now rewrite <- app_assoc in IH.
Qed.

(** When a typed Write method sets the latch, the sink received one write
    for each of the first lines of the stream, all successful but the last,
    whose error is the latch. *)
Lemma WriteCursor_first_failure {V : Type} (appends : body V)
    (self : Writer) (cur : tsdb.Cursor V) (e : error) :
  err self = None ->
  err (fst (state_of (WriteCursor appends self cur))) = Some e ->
  exists sent l rest,
    map (rendered appends) (points_of cur) = sent ++ l :: rest /\
    bufio.received (w (fst (state_of (WriteCursor appends self cur)))) =
    bufio.received (w self) ++ map bufio.WriteCall (sent ++ [l]) /\
    (forall j x,
        nth_error sent j = Some x ->
        bufio.respond (w self)
          (bufio.received (w self) ++ map bufio.WriteCall (firstn j sent))
          (bufio.WriteCall x) = None) /\
    bufio.respond (w self)
      (bufio.received (w self) ++ map bufio.WriteCall sent)
      (bufio.WriteCall l) = Some e.
Proof.
  intros E L.
  destruct (WriteCursor_written appends self cur E) as [k (Aw & Ae & _)].
  fold (points_of cur) in Aw, Ae.
  set (ls := map (rendered appends) (points_of cur)) in *.
  rewrite L in Ae. unfold wrote in Aw, Ae. simpl in Ae. symmetry in Ae.
  destruct (written_Some _ _ _ _ Ae) as (sent & l & F & (rest & Hk) & W & Rl).
  exists sent, l, (rest ++ skipn k ls). repeat split.
  - rewrite <- (firstn_skipn k ls) at 1. rewrite Hk, <- app_assoc. reflexivity.
  - rewrite Aw. simpl. exact F.
  - apply written_None_each. now rewrite W.
  - exact Rl.
Qed.


Section Claims.

Context {imports : Imports}.

(** Typed Write calls behind the guard leave the encoder and themselves
    as they are. *)
Lemma run_guarded (writes : list op) (self : Writer) :
  forallb is_typed_write writes = true ->
  not_nil (err self) || Bool.eqb (m self) Series = true ->
  run self writes = Returned (self, writes).
Proof.
  intros T G. induction writes as [|o rest IH]; [reflexivity|].
  simpl in T. apply andb_prop in T as [To Tr].
  cbn [run]. rewrite (exec_guard self o To G), (IH Tr). reflexivity.
Qed.

Lemma BeginSeries_frame (self : Writer) name field typ tags :
  m (BeginSeries self name field typ tags) = m self /\
  err (BeginSeries self name field typ tags) = err self.
Proof.
  unfold BeginSeries.
  destruct (not_nil (err self)); [auto|].
  destruct (Bool.eqb (m self) Series); auto.
Qed.

(** C5: for every typed Write method in [Values] mode with no prior error,
    a cursor whose first fetch gives a batch of length zero costs that one
    fetch and nothing else: the method returns and the encoder is as it
    was, so no byte was written and [Err] is still none. *)
Theorem empty_first_batch_writes_nothing (self : Writer) :
  m self = Values ->
  Err self = None ->
  (forall cur : tsdb.IntegerArrayCursor,
      tsdb.Len (fst (tsdb.Next cur)) = 0%nat ->
      WriteIntegerCursor self cur = Returned (self, snd (tsdb.Next cur))) /\
  (forall cur : tsdb.Cursor float64,
      tsdb.Len (fst (tsdb.Next cur)) = 0%nat ->
      WriteFloatCursor self cur = Returned (self, snd (tsdb.Next cur))) /\
  (forall cur : tsdb.UnsignedArrayCursor,
      tsdb.Len (fst (tsdb.Next cur)) = 0%nat ->
      WriteUnsignedCursor self cur = Returned (self, snd (tsdb.Next cur))) /\
  (forall cur : tsdb.BooleanArrayCursor,
      tsdb.Len (fst (tsdb.Next cur)) = 0%nat ->
      WriteBooleanCursor self cur = Returned (self, snd (tsdb.Next cur))) /\
  (forall cur : tsdb.StringArrayCursor,
      tsdb.Len (fst (tsdb.Next cur)) = 0%nat ->
      WriteStringCursor self cur = Returned (self, snd (tsdb.Next cur))).
Proof.
  intros M E. repeat split; intros cur L; now apply WriteCursor_empty.
Qed.

(** C4: every typed Write method returns at once when the latch is set or
    the mode is [Series], with the encoder and the cursor as they were (the
    cursor has served no further fetch); hence in [Series] mode
    [BeginSeries] followed by typed Write calls ends with the encoder of
    [BeginSeries] alone, the same output, and every cursor as it was
    given. *)
Theorem typed_Write_guarded_is_noop :
  (forall self : Writer,
      Err self <> None \/ m self = Series ->
      (forall cur, WriteIntegerCursor self cur = Returned (self, cur)) /\
      (forall cur, WriteFloatCursor self cur = Returned (self, cur)) /\
      (forall cur, WriteUnsignedCursor self cur = Returned (self, cur)) /\
      (forall cur, WriteBooleanCursor self cur = Returned (self, cur)) /\
      (forall cur, WriteStringCursor self cur = Returned (self, cur))) /\
  (forall (self : Writer) name field typ tags (writes : list op),
      m self = Series ->
      forallb is_typed_write writes = true ->
      run self (CallBeginSeries name field typ tags :: writes) =
      Returned (BeginSeries self name field typ tags,
                CallBeginSeries name field typ tags :: writes) /\
      output_after self (CallBeginSeries name field typ tags :: writes) =
      output_after self [CallBeginSeries name field typ tags]).
Proof.
  split.
  - intros self G. apply guard_true in G.
    repeat split; intros cur; now apply WriteCursor_guard.
  - intros self name field typ tags writes M T.
    assert (R : run self (CallBeginSeries name field typ tags :: writes) =
                Returned (BeginSeries self name field typ tags,
                          CallBeginSeries name field typ tags :: writes)).
    { cbn [run exec]. rewrite (run_guarded writes _ T); [reflexivity|].
      destruct (BeginSeries_frame self name field typ tags) as [-> _].
      rewrite M. apply orb_true_r. }
    split; [exact R|].
    unfold output_after, encoder_after. rewrite R. reflexivity.
Qed.

(** C6: [Close] flushes the sink and returns what the flush returned; the
    latch has no part in it (another latch, same result) and [Close]
    leaves the latch as it was.  [Err] returns the latch, and a latch that
    is set is never replaced, whatever is called afterwards. *)
Theorem Close_returns_the_flush_error (wr : bufio.Writer) (k : bytes)
    (md : Mode) (latch other : option error) :
  Close (mkWriter wr k latch md) =
    (mkWriter (fst (bufio.Flush wr)) k latch md, snd (bufio.Flush wr)) /\
  snd (Close (mkWriter wr k other md)) = snd (Close (mkWriter wr k latch md)) /\
  Err (fst (Close (mkWriter wr k latch md))) = latch /\
  Err (mkWriter wr k latch md) = latch /\
  (forall (e : error) (ops : list op),
      Err (encoder_after (mkWriter wr k (Some e) md) ops) = Some e).
Proof.
  repeat split.
  intros e ops. unfold encoder_after.
  rewrite run_latched by reflexivity. reflexivity.
Qed.

(** C10: [EndSeries] does nothing: the encoder it leaves is the encoder it
    was given, field for field, so the sink has received nothing; and
    taking the [EndSeries] calls out of a call sequence changes neither the
    encoder the sequence ends with nor whether it panics. *)
Theorem EndSeries_is_identity (self : Writer) :
  EndSeries self = self /\
  w (EndSeries self) = w self /\
  key (EndSeries self) = key self /\
  err (EndSeries self) = err self /\
  m (EndSeries self) = m self /\
  (forall ops : list op,
      encoder_after self ops =
        encoder_after self (filter (fun o => negb (is_EndSeries o)) ops) /\
      has_panicked (run self ops) =
        has_panicked (run self (filter (fun o => negb (is_EndSeries o)) ops))).
Proof.
  repeat split.
  - now apply (run_skip (fun _ => True) is_EndSeries); auto;
      intros s o _ E; destruct o; try discriminate.
  - now apply (run_skip (fun _ => True) is_EndSeries); auto;
      intros s o _ E; destruct o; try discriminate.
Qed.

(** C8: the mode is the one given at construction and no call changes it.
    So an encoder in [Series] mode writes nothing for points: its typed
    Write calls can be taken out of any call sequence without changing what
    the sequence ends with; and an encoder in [Values] mode writes no key
    line: its [BeginSeries] calls return the encoder as it was and can be
    taken out likewise. *)
Theorem mode_is_fixed_and_selects_the_lines :
  (forall (sink : io_Writer) (mode : Mode), m (NewWriter sink mode) = mode) /\
  (forall (self : Writer) (ops : list op),
      m (encoder_after self ops) = m self) /\
  (forall (self : Writer) (ops : list op),
      m self = Series ->
      encoder_after self ops =
        encoder_after self (filter (fun o => negb (is_typed_write o)) ops) /\
      has_panicked (run self ops) =
        has_panicked (run self (filter (fun o => negb (is_typed_write o)) ops))) /\
  (forall (self : Writer) name field typ tags,
      m self = Values -> BeginSeries self name field typ tags = self) /\
  (forall (self : Writer) (ops : list op),
      m self = Values ->
      encoder_after self ops =
        encoder_after self (filter (fun o => negb (is_BeginSeries o)) ops) /\
      has_panicked (run self ops) =
        has_panicked (run self (filter (fun o => negb (is_BeginSeries o)) ops))).
Proof.
  assert (Keep : forall md (self : Writer) (o : op),
             m self = md -> m (fst (state_of (exec self o))) = md).
  { intros md self o M. destruct (exec_frame self o) as [-> _]. exact M. }
  assert (Begin : forall (self : Writer) name field typ tags,
             m self = Values -> BeginSeries self name field typ tags = self).
  { intros self name field typ tags M. unfold BeginSeries. rewrite M.
    destruct (not_nil (err self)); reflexivity. }
  split; [reflexivity|]. split; [intros; apply run_mode|].
  split; [|split; [exact Begin|]].
  - intros self ops M.
    apply (run_skip (fun s => m s = Series) is_typed_write); auto.
    intros s o Ms T. apply exec_guard; [exact T|].
    rewrite Ms. apply orb_true_r.
  - intros self ops M.
    apply (run_skip (fun s => m s = Values) is_BeginSeries); auto.
    intros s o Ms B. destruct o; try discriminate. simpl.
    now rewrite Begin.
Qed.

(** C2: when a typed Write call ([WriteCursor] at the appends of its line)
    sets the latch, the call returned, and what the sink received from it
    is one write for each of the first lines of the stream, in order, every
    one of which succeeded but the last: that write failed, the latch holds
    its error, and nothing was sent after it.  The batches behind the one
    being written are left in the cursor, never fetched.  From then on, for
    every sequence of calls, each call returns, the cursors handed in are
    as they were, [Err] is unchanged and the sink receives nothing but the
    flush of each [Close]: not one more byte. *)
Theorem latch_stops_all_output :
  (forall (V : Type) (appends : body V)
          (self : Writer) (cur : tsdb.Cursor V) (e : error),
      Err self = None ->
      Err (fst (state_of (WriteCursor appends self cur))) = Some e ->
      has_panicked (WriteCursor appends self cur) = false /\
      (exists sent l rest,
          map (rendered appends) (points_of cur) = sent ++ l :: rest /\
          bufio.received (w (fst (state_of (WriteCursor appends self cur)))) =
          bufio.received (w self) ++ map bufio.WriteCall (sent ++ [l]) /\
          (forall j x,
              nth_error sent j = Some x ->
              bufio.respond (w self)
                (bufio.received (w self) ++ map bufio.WriteCall (firstn j sent))
                (bufio.WriteCall x) = None) /\
          bufio.respond (w self)
            (bufio.received (w self) ++ map bufio.WriteCall sent)
            (bufio.WriteCall l) = Some e) /\
      (exists pre p,
          bufio.received (w (fst (state_of (WriteCursor appends self cur)))) =
          pre ++ [bufio.WriteCall p] /\
          bufio.respond (w self) pre (bufio.WriteCall p) = Some e) /\
      (exists done a rest,
          tsdb.pending cur = done ++ a :: rest /\
          snd (state_of (WriteCursor appends self cur)) =
          tsdb.mkCursor rest (tsdb.fetched cur + length done + 1))) /\
  (forall (self : Writer) (ops : list op),
      Err self <> None ->
      run self ops = Returned (flushed self (closes ops), ops) /\
      output_after self ops = bufio.output (w self) /\
      Err (encoder_after self ops) = Err self).
Proof.
  split.
  - intros V appends self cur e E L.
    destruct (WriteCursor_latch appends self cur e E L) as (P & Last & Cur).
    split; [exact P|]. split; [|split; [exact Last | exact Cur]].
    now apply WriteCursor_first_failure.
  - intros self ops L. apply not_nil_true in L.
    pose proof (run_latched ops self L) as R.
    split; [exact R|].
    unfold output_after, encoder_after. rewrite R. simpl.
    split; [apply output_flushed | reflexivity].
Qed.

(** C9: two fresh encoders in the same mode, on sinks that answer every
    call alike, given the same call sequence with the same cursors, hand
    their sinks the same calls and so the same bytes; they end with the
    same latch and scratch field, leave the cursors in the same state, and
    panic or not alike. *)
Theorem same_calls_give_the_same_output (mode : Mode)
    (r1 r2 : bufio.behaviour) (ops : list op) :
  (forall h c, r1 h c = r2 h c) ->
  output_after (NewWriter (Unbuffered r1) mode) ops =
    output_after (NewWriter (Unbuffered r2) mode) ops /\
  bufio.received (w (encoder_after (NewWriter (Unbuffered r1) mode) ops)) =
    bufio.received (w (encoder_after (NewWriter (Unbuffered r2) mode) ops)) /\
  Err (encoder_after (NewWriter (Unbuffered r1) mode) ops) =
    Err (encoder_after (NewWriter (Unbuffered r2) mode) ops) /\
  key (encoder_after (NewWriter (Unbuffered r1) mode) ops) =
    key (encoder_after (NewWriter (Unbuffered r2) mode) ops) /\
  snd (state_of (run (NewWriter (Unbuffered r1) mode) ops)) =
    snd (state_of (run (NewWriter (Unbuffered r2) mode) ops)) /\
  has_panicked (run (NewWriter (Unbuffered r1) mode) ops) =
    has_panicked (run (NewWriter (Unbuffered r2) mode) ops).
Proof.
  intros Ext.
  assert (Sm : same_encoder (NewWriter (Unbuffered r1) mode)
                            (NewWriter (Unbuffered r2) mode)).
  { repeat split. exact Ext. }
  pose proof (run_same ops _ _ Sm) as R.
  unfold output_after, encoder_after, bufio.output.
  destruct (run (NewWriter (Unbuffered r1) mode) ops) as [[u1 o1]|[u1 o1]],
    (run (NewWriter (Unbuffered r2) mode) ops) as [[u2 o2]|[u2 o2]];
    simpl in R |- *; try contradiction;
    destruct R as (((Rc & _) & K & E & _) & ->); unfold Err;
    rewrite Rc, K, E; repeat split.
Qed.

(** C1, as the code has it: in [Series] mode, on a sink whose every call
    fails with [e], [BeginSeries] writes the key line, the write fails, and
    the latch is not set: [Err] returns none afterwards and the next
    [BeginSeries] writes to the sink again.  On no encoder and no sink does
    [BeginSeries] change what [Err] returns. *)
Theorem BeginSeries_does_not_latch (e : error) name field typ tags :
  let self := NewWriter (Unbuffered (bufio.broken e)) Series in
  let self' := BeginSeries self name field typ tags in
  bufio.received (w self') =
    [bufio.WriteCall (key self'); bufio.WriteByteCall x0a] /\
  snd (bufio.Write (w self) (key self')) = Some e /\
  Err self' = None /\
  bufio.received (w (BeginSeries self' name field typ tags)) =
    bufio.received (w self') ++
    [bufio.WriteCall (key self'); bufio.WriteByteCall x0a] /\
  (forall other : Writer,
      Err (BeginSeries other name field typ tags) = Err other).
Proof.
  repeat split. intros other. apply BeginSeries_frame.
Qed.

End Claims.

(** * The claims at concrete inputs *)

(** Stand-ins for the imported functions, to run the encoder on examples
    that do not depend on what those functions compute: the key is the name
    followed by [,key=value] for each tag, nothing is escaped, and every
    float is written as [0]. *)
#[local] Instance sample_Imports : Imports := {|
  float64 := unit;
  AppendFloat_appends := fun _ => [["0"%byte]];
  AppendMakeKey := fun dst name tags =>
    dst ++ name ++
    flat_map (fun kv => [","%byte] ++ fst kv ++ ["="%byte] ++ snd kv) tags;
  escape_Bytes := fun b => b
|}.

Definition disk_full : error := errorString "disk full".

(** A fresh encoder in [Values] mode on a sink that takes one call and
    fails every later one. *)
Definition failing_encoder : Writer :=
  NewWriter (Unbuffered (bufio.fails_after 1 disk_full)) Values.

(** A driver's calls for one series: the key, an integer cursor, the end
    of the series, and the close. *)
Definition one_series : list op :=
  [ CallBeginSeries (list_byte_of_string "cpu") (list_byte_of_string "usage")
      0 [(list_byte_of_string "host", list_byte_of_string "a")];
    CallWriteIntegerCursor integer_example;
    CallEndSeries;
    CallClose ].

(** A cursor whose first batch has length zero, with a batch behind it. *)
Definition ended_cursor : tsdb.IntegerArrayCursor :=
  tsdb.NewCursor [tsdb.points []; tsdb.points [(1, 2)]].

(** C2 at the failing encoder: the first point's write succeeds, the
    second point's write fails and sets the latch, and it is the last thing
    the sink receives; the series that follows adds no byte. *)
Lemma latch_stops_all_output_witness :
  let latched := fst (state_of (WriteIntegerCursor failing_encoder integer_example)) in
  (has_panicked (WriteCursor integer_appends failing_encoder integer_example) = false /\
   (exists sent l rest,
       map (rendered integer_appends) (points_of integer_example) = sent ++ l :: rest /\
       bufio.received (w latched) =
       bufio.received (w failing_encoder) ++ map bufio.WriteCall (sent ++ [l]) /\
       (forall j x,
           nth_error sent j = Some x ->
           bufio.respond (w failing_encoder)
             (bufio.received (w failing_encoder) ++ map bufio.WriteCall (firstn j sent))
             (bufio.WriteCall x) = None) /\
       bufio.respond (w failing_encoder)
         (bufio.received (w failing_encoder) ++ map bufio.WriteCall sent)
         (bufio.WriteCall l) = Some disk_full) /\
   (exists pre p,
       bufio.received (w latched) = pre ++ [bufio.WriteCall p] /\
       bufio.respond (w failing_encoder) pre (bufio.WriteCall p) = Some disk_full) /\
   (exists done a rest,
       tsdb.pending integer_example = done ++ a :: rest /\
       snd (state_of (WriteCursor integer_appends failing_encoder integer_example)) =
       tsdb.mkCursor rest (tsdb.fetched integer_example + length done + 1))) /\
  (run latched one_series = Returned (flushed latched (closes one_series), one_series) /\
   output_after latched one_series = bufio.output (w latched) /\
   Err (encoder_after latched one_series) = Err latched).
Proof.
  split.
  - apply (proj1 (latch_stops_all_output)
             Z integer_appends failing_encoder integer_example disk_full);
      reflexivity.
  - apply (proj2 (latch_stops_all_output)).
    simpl. discriminate.
Defined.

(** C4 at a fresh encoder in [Series] mode. *)
Lemma typed_Write_guarded_is_noop_witness :
  WriteIntegerCursor series_encoder integer_example =
    Returned (series_encoder, integer_example) /\
  output_after series_encoder
    [CallBeginSeries (list_byte_of_string "cpu") (list_byte_of_string "usage") 0 [];
     CallWriteIntegerCursor integer_example;
     CallWriteStringCursor string_example] =
  list_byte_of_string "cpu usage" ++ [x0a].
Proof.
  split.
  - apply (proj1 typed_Write_guarded_is_noop
             series_encoder (or_intror eq_refl)).
  - rewrite (proj2 (proj2 typed_Write_guarded_is_noop
                      series_encoder (list_byte_of_string "cpu")
                      (list_byte_of_string "usage") 0 []
                      [CallWriteIntegerCursor integer_example;
                       CallWriteStringCursor string_example]
                      eq_refl eq_refl)).
    reflexivity.
Defined.

(** C5 at a fresh encoder in [Values] mode: a cursor with nothing, and one
    whose first batch is empty. *)
Lemma empty_first_batch_writes_nothing_witness :
  WriteIntegerCursor values_encoder (tsdb.NewCursor []) =
    Returned (values_encoder, tsdb.mkCursor [] 1) /\
  WriteIntegerCursor values_encoder ended_cursor =
    Returned (values_encoder, tsdb.mkCursor [tsdb.points [(1, 2)]] 1).
Proof.
  split.
  - apply (proj1 (empty_first_batch_writes_nothing
                    values_encoder eq_refl eq_refl)
             (tsdb.NewCursor [])).
    reflexivity.
  - apply (proj1 (empty_first_batch_writes_nothing
                    values_encoder eq_refl eq_refl)
             ended_cursor).
    reflexivity.
Defined.

(** C8 at fresh encoders: in [Series] mode the series leaves what its key
    and close leave; in [Values] mode, what its cursor and close leave. *)
Lemma mode_is_fixed_and_selects_the_lines_witness :
  encoder_after series_encoder one_series =
    encoder_after series_encoder
      [ CallBeginSeries (list_byte_of_string "cpu") (list_byte_of_string "usage")
          0 [(list_byte_of_string "host", list_byte_of_string "a")];
        CallEndSeries; CallClose ] /\
  encoder_after values_encoder one_series =
    encoder_after values_encoder
      [ CallWriteIntegerCursor integer_example; CallEndSeries; CallClose ].
Proof.
  split.
  - apply (proj1 (proj2 (proj2 mode_is_fixed_and_selects_the_lines))
             series_encoder one_series eq_refl).
  - apply (proj2 (proj2 (proj2 (proj2 mode_is_fixed_and_selects_the_lines)))
             values_encoder one_series eq_refl).
Defined.

(** A sink that checks, before every call, that it has received fewer
    calls than it has received plus one: it never fails, and is written
    differently from [bufio.reliable]. *)
Definition never_full : bufio.behaviour :=
  fun h c => bufio.fails_after (S (length h)) disk_full h c.

(** C9 at those two sinks. *)
Lemma same_calls_give_the_same_output_witness :
  output_after (NewWriter (Unbuffered bufio.reliable) Values) one_series =
  output_after (NewWriter (Unbuffered never_full) Values) one_series.
Proof.
  apply (same_calls_give_the_same_output Values bufio.reliable never_full one_series).
  intros h c. unfold never_full, bufio.fails_after, bufio.reliable.
  now rewrite (proj2 (Nat.ltb_lt (length h) (S (length h))) (Nat.lt_succ_diag_r _)).
Defined.

(** * Further properties of the encoder

    What the code shows beyond the claims above: the other three value
    kinds, the key lines of [Series] mode, how calls compose, and where a
    typed Write method panics. *)

(** Reading an unsigned decimal numeral back. *)
Definition ParseUint (s : bytes) : option N :=
  option_map N.of_uint (NilZero.uint_of_string (string_of_list_byte s)).

Lemma uint_of_string_of_uint (d : Decimal.uint) :
  option_map N.of_uint (NilZero.uint_of_string (NilZero.string_of_uint d)) =
  Some (N.of_uint d).
Proof.
  destruct d; try (rewrite NilZero.usu by discriminate; reflexivity).
  rewrite NilZero.usu_nil. reflexivity.
Qed.

Lemma ParseUint_FormatUint (u : N) :
  ParseUint (strconv.FormatUint u) = Some u.
Proof.
  unfold ParseUint, strconv.FormatUint.
  rewrite string_of_list_byte_of_string, uint_of_string_of_uint.
  f_equal. apply DecimalN.Unsigned.of_to.
Qed.

(** The line of an unsigned point: the base-10 value, [u], a space, the
    base-10 signed timestamp, a newline. *)
Definition spec_unsigned_line (p : Z * N) : bytes :=
  strconv.FormatUint (snd p) ++ ["u"%byte; " "%byte] ++
  strconv.FormatInt (fst p) ++ [x0a].

(** The line of a boolean point: [true] or [false], a space, the base-10
    signed timestamp, a newline. *)
Definition spec_boolean_line (p : Z * bool) : bytes :=
  (if snd p then list_byte_of_string "true" else list_byte_of_string "false") ++
  [" "%byte] ++ strconv.FormatInt (fst p) ++ [x0a].

(** The line of a float point: what [strconv.AppendFloat] puts in an empty
    slice, a space, the base-10 signed timestamp, a newline. *)
Definition spec_float_line `{Imports} (p : Z * float64) : bytes :=
  AppendFloat [] (snd p) ++ [" "%byte] ++ strconv.FormatInt (fst p) ++ [x0a].

Lemma unsigned_line_eq (p : Z * N) :
  rendered unsigned_appends p = spec_unsigned_line p.
Proof. reflexivity. Qed.

Lemma boolean_line_eq (p : Z * bool) :
  rendered boolean_appends p = spec_boolean_line p.
Proof.
  destruct p as [t [|]]; reflexivity.
Qed.

Lemma float_line_eq `{Imports} (p : Z * float64) :
  rendered float_appends p = spec_float_line p.
Proof.
  unfold rendered, float_appends, spec_float_line, AppendFloat.
  simpl. rewrite concat_app. reflexivity.
Qed.

(** The cursor a drain leaves: behind the batch of length zero that ended
    the stream, one fetch served per batch of the stream and one for the
    batch that ended it. *)
Definition drained {V : Type} (cur : tsdb.Cursor V) : tsdb.Cursor V :=
  tsdb.mkCursor (beyond (tsdb.pending cur))
    (tsdb.fetched cur + length (stream (tsdb.pending cur)) + 1).

(** A typed Write method whose appends make the lines [spec_line], on a
    sink that takes every write and with no value missing: every line is
    written. *)
Lemma WriteCursor_complete {V : Type} (appends : body V)
    (spec_line : Z * V -> bytes) (self : Writer) (cur : tsdb.Cursor V) :
  (forall p, rendered appends p = spec_line p) ->
  m self = Values ->
  err self = None ->
  accepts_every_Write (w self) ->
  Forall parallel (stream (tsdb.pending cur)) ->
  exists k,
    WriteCursor appends self cur =
    Returned (set_key (emit self (map spec_line (points_of cur))) k, drained cur).
Proof.
  intros L M E Acc Par.
  destruct (WriteCursor_reliable appends self cur M E Acc Par) as [k Hk].
  exists k. rewrite (map_ext _ _ L) in Hk. exact Hk.
Qed.

(** Whatever the sink, the writes it receives are the first lines of the
    stream, in order. *)
Lemma WriteCursor_up_to {V : Type} (appends : body V)
    (spec_line : Z * V -> bytes) (self : Writer) (cur : tsdb.Cursor V) :
  (forall p, rendered appends p = spec_line p) ->
  exists k,
    bufio.received (w (fst (state_of (WriteCursor appends self cur)))) =
    bufio.received (w self) ++
    map bufio.WriteCall (firstn k (map spec_line (points_of cur))).
Proof.
  intros L. destruct (WriteCursor_prefix appends self cur) as [k Hk].
  exists k. rewrite (map_ext _ _ L) in Hk. exact Hk.
Qed.

(** X1: in [Values] mode with no prior error, on a sink that takes every
    write and with a value for every timestamp, [WriteUnsignedCursor]
    returns having written one line per point of the stream, in order: the
    base-10 unsigned value, [u], a space, the base-10 signed timestamp, a
    newline; sink, latch, mode and cursor are stated, the scratch slice
    shows some bytes [k].  Whatever the sink, what it receives is those
    writes up to where the method left.  The unsigned numeral reads back as
    the value. *)
Theorem WriteUnsignedCursor_renders_every_pair :
  (forall (self : Writer) (cur : tsdb.UnsignedArrayCursor),
      m self = Values ->
      Err self = None ->
      accepts_every_Write (w self) ->
      Forall parallel (stream (tsdb.pending cur)) ->
      exists k,
        WriteUnsignedCursor self cur =
        Returned (set_key (emit self (map spec_unsigned_line (points_of cur))) k,
                  drained cur)) /\
  (forall (self : Writer) (cur : tsdb.UnsignedArrayCursor),
      exists k,
        bufio.received (w (fst (state_of (WriteUnsignedCursor self cur)))) =
        bufio.received (w self) ++
        map bufio.WriteCall (firstn k (map spec_unsigned_line (points_of cur)))) /\
  (forall u : N, ParseUint (strconv.FormatUint u) = Some u).
Proof.
  split; [|split; [|exact ParseUint_FormatUint]].
  - intros self cur. apply WriteCursor_complete, unsigned_line_eq.
  - intros self cur. apply WriteCursor_up_to, unsigned_line_eq.
Qed.

(** X2: in [Values] mode with no prior error, on a sink that takes every
    write and with a value for every timestamp, [WriteBooleanCursor]
    returns having written one line per point of the stream, in order: the
    word [true] or [false], a space, the base-10 signed timestamp, a
    newline; sink, latch, mode and cursor are stated, the scratch slice
    shows some bytes [k].  Whatever the sink, what it receives is those
    writes up to where the method left. *)
Theorem WriteBooleanCursor_renders_every_pair :
  (forall (self : Writer) (cur : tsdb.BooleanArrayCursor),
      m self = Values ->
      Err self = None ->
      accepts_every_Write (w self) ->
      Forall parallel (stream (tsdb.pending cur)) ->
      exists k,
        WriteBooleanCursor self cur =
        Returned (set_key (emit self (map spec_boolean_line (points_of cur))) k,
                  drained cur)) /\
  (forall (self : Writer) (cur : tsdb.BooleanArrayCursor),
      exists k,
        bufio.received (w (fst (state_of (WriteBooleanCursor self cur)))) =
        bufio.received (w self) ++
        map bufio.WriteCall (firstn k (map spec_boolean_line (points_of cur)))).
Proof.
  split.
  - intros self cur. apply WriteCursor_complete, boolean_line_eq.
  - intros self cur. apply WriteCursor_up_to, boolean_line_eq.
Qed.

(** X3: in [Values] mode with no prior error, on a sink that takes every
    write and with a value for every timestamp, [WriteFloatCursor] returns
    having written one line per point of the stream, in order: the value as
    [strconv.AppendFloat] formats it into the emptied slice, with no type
    suffix, a space, the base-10 signed timestamp, a newline; sink, latch,
    mode and cursor are stated, the scratch slice shows some bytes [k].
    Whatever the sink, what it receives is those writes up to where the
    method left. *)
Theorem WriteFloatCursor_renders_every_pair `{Imports} :
  (forall (self : Writer) (cur : tsdb.Cursor float64),
      m self = Values ->
      Err self = None ->
      accepts_every_Write (w self) ->
      Forall parallel (stream (tsdb.pending cur)) ->
      exists k,
        WriteFloatCursor self cur =
        Returned (set_key (emit self (map spec_float_line (points_of cur))) k,
                  drained cur)) /\
  (forall (self : Writer) (cur : tsdb.Cursor float64),
      exists k,
        bufio.received (w (fst (state_of (WriteFloatCursor self cur)))) =
        bufio.received (w self) ++
        map bufio.WriteCall (firstn k (map spec_float_line (points_of cur)))).
Proof.
  split.
  - intros self cur. apply WriteCursor_complete, float_line_eq.
  - intros self cur. apply WriteCursor_up_to, float_line_eq.
Qed.

(** The encoder after its sink received the calls [cs] and its scratch
    field was set to [k]. *)
Definition received_more (self : Writer) (cs : list bufio.call) (k : bytes)
    : Writer :=
  mkWriter (bufio.mkWriter (bufio.received (w self) ++ cs) (bufio.respond (w self)))
           k (err self) (m self).

Lemma received_more_nil (self : Writer) : received_more self [] (key self) = self.
Proof.
  destruct self as [[rcv rsp] k e md]. unfold received_more. simpl.
  now rewrite app_nil_r.
Qed.

Lemma received_more_twice (self : Writer) (c1 c2 : list bufio.call) (k1 k2 : bytes) :
  received_more (received_more self c1 k1) c2 k2 = received_more self (c1 ++ c2) k2.
Proof.
  unfold received_more. simpl. now rewrite app_assoc.
Qed.

Lemma emit_received_more (self : Writer) (ls : list bytes) :
  emit self ls = received_more self (map bufio.WriteCall ls) (key self).
Proof. reflexivity. Qed.

Lemma output_received_more (self : Writer) (cs : list bufio.call) (k : bytes) :
  bufio.output (w (received_more self cs k)) =
  bufio.output (w self) ++ flat_map bufio.payload cs.
Proof.
  unfold bufio.output, received_more. simpl. apply flat_map_app.
Qed.

Section CallSequences.

Context {imports : Imports}.

(** The key of a series and field as [BeginSeries] builds it in the
    emptied scratch slice. *)
Definition key_of (name field : bytes) (tags : models.Tags) : bytes :=
  AppendMakeKey [] name tags ++ [" "%byte] ++ escape_Bytes field.

(** What a call hands the sink of an unlatched encoder in [Series] mode. *)
Definition series_calls (o : op) : list bufio.call :=
  match o with
  | CallBeginSeries name field _ tags =>
      [bufio.WriteCall (key_of name field tags); bufio.WriteByteCall x0a]
  | CallClose => [bufio.FlushCall]
  | _ => []
  end.

(** The bytes of that: the key line of a [BeginSeries], nothing else. *)
Definition series_text (o : op) : bytes :=
  match o with
  | CallBeginSeries name field _ tags => key_of name field tags ++ [x0a]
  | _ => []
  end.

(** The scratch field after a call in [Series] mode. *)
Definition series_key (k : bytes) (o : op) : bytes :=
  match o with
  | CallBeginSeries name field _ tags => key_of name field tags
  | _ => k
  end.

Lemma payload_series_calls (ops : list op) :
  flat_map bufio.payload (flat_map series_calls ops) = flat_map series_text ops.
Proof.
  induction ops as [|o rest IH]; [reflexivity|].
  simpl. rewrite flat_map_app, IH. f_equal.
  destruct o; reflexivity.
Qed.

Lemma exec_Series (self : Writer) (o : op) :
  m self = Series ->
  err self = None ->
  exec self o =
  Returned (received_more self (series_calls o) (series_key (key self) o), o).
Proof.
  intros M E.
  assert (G : not_nil (err self) || Bool.eqb (m self) Series = true)
    by (rewrite M; apply orb_true_r).
  destruct o;
    try (match goal with
         | |- exec self ?c = _ => rewrite (exec_guard self c eq_refl G)
         end; simpl; now rewrite received_more_nil);
    simpl; try (now rewrite received_more_nil).
  - unfold BeginSeries. rewrite E, M. simpl.
    unfold received_more, key_of. simpl.
    rewrite E, M, <- !app_assoc. reflexivity.
  - unfold received_more. simpl. reflexivity.
Qed.

Lemma run_Series (ops : list op) :
  forall self,
    m self = Series ->
    err self = None ->
    run self ops =
    Returned (received_more self (flat_map series_calls ops)
                (fold_left series_key ops (key self)), ops).
Proof.
  induction ops as [|o rest IH]; intros self M E.
  - simpl. now rewrite received_more_nil.
  - cbn [run]. rewrite (exec_Series self o M E).
    rewrite IH by assumption. simpl.
    now rewrite received_more_twice.
Qed.

(** X4: in [Series] mode, not latched, on any sink, a call sequence
    returns with every cursor untouched; the sink has received, in call
    order, for each [BeginSeries] one write of its key (the key built in
    the emptied scratch slice, a space, the escaped field) and one newline
    byte, and one flush for each [Close], and nothing else.  So the output
    is the key lines of the [BeginSeries] calls, in order, whether or not
    the sink reported failures. *)
Theorem Series_output_is_the_key_lines (self : Writer) (ops : list op) :
  m self = Series ->
  Err self = None ->
  run self ops =
    Returned (received_more self (flat_map series_calls ops)
                (fold_left series_key ops (key self)), ops) /\
  output_after self ops = bufio.output (w self) ++ flat_map series_text ops.
Proof.
  intros M E. pose proof (run_Series ops self M E) as R.
  split; [exact R|].
  unfold output_after, encoder_after. rewrite R. simpl fst.
  now rewrite output_received_more, payload_series_calls.
Qed.

(** X5: an encoder made in [Series] mode never latches and never panics:
    whatever the sink answers and whatever is called, [Err] returns none
    and every call returns. *)
Theorem Series_encoder_never_latches (sink : io_Writer) (ops : list op) :
  Err (encoder_after (NewWriter sink Series) ops) = None /\
  has_panicked (run (NewWriter sink Series) ops) = false /\
  snd (state_of (run (NewWriter sink Series) ops)) = ops.
Proof.
  unfold encoder_after.
  rewrite (run_Series ops (NewWriter sink Series) eq_refl eq_refl).
  repeat split.
Qed.

(** The lines a typed Write call is to write. *)
Definition values_lines (o : op) : list bytes :=
  match o with
  | CallWriteIntegerCursor cur => map spec_integer_line (points_of cur)
  | CallWriteFloatCursor cur => map spec_float_line (points_of cur)
  | CallWriteUnsignedCursor cur => map spec_unsigned_line (points_of cur)
  | CallWriteBooleanCursor cur => map spec_boolean_line (points_of cur)
  | CallWriteStringCursor cur => map spec_string_line (points_of cur)
  | _ => []
  end.

(** What a call hands the sink of an unlatched encoder in [Values] mode
    when no write fails. *)
Definition values_calls (o : op) : list bufio.call :=
  match o with
  | CallClose => [bufio.FlushCall]
  | _ => map bufio.WriteCall (values_lines o)
  end.

(** A call with its cursor drained. *)
Definition drained_op (o : op) : op :=
  match o with
  | CallWriteIntegerCursor cur => CallWriteIntegerCursor (drained cur)
  | CallWriteFloatCursor cur => CallWriteFloatCursor (drained cur)
  | CallWriteUnsignedCursor cur => CallWriteUnsignedCursor (drained cur)
  | CallWriteBooleanCursor cur => CallWriteBooleanCursor (drained cur)
  | CallWriteStringCursor cur => CallWriteStringCursor (drained cur)
  | _ => o
  end.

(** The cursor of a call has a value for every timestamp of its stream. *)
Definition well_formed_op (o : op) : Prop :=
  match o with
  | CallWriteIntegerCursor cur => Forall parallel (stream (tsdb.pending cur))
  | CallWriteFloatCursor cur => Forall parallel (stream (tsdb.pending cur))
  | CallWriteUnsignedCursor cur => Forall parallel (stream (tsdb.pending cur))
  | CallWriteBooleanCursor cur => Forall parallel (stream (tsdb.pending cur))
  | CallWriteStringCursor cur => Forall parallel (stream (tsdb.pending cur))
  | _ => True
  end.

Lemma payload_values_calls (ops : list op) :
  flat_map bufio.payload (flat_map values_calls ops) =
  concat (flat_map values_lines ops).
Proof.
  assert (P : forall ls, flat_map bufio.payload (map bufio.WriteCall ls) = concat ls).
  { induction ls as [|l ls IH]; simpl; [reflexivity | now rewrite IH]. }
  induction ops as [|o rest IH]; [reflexivity|].
  simpl. rewrite flat_map_app, concat_app, IH. f_equal.
  destruct o; simpl; try apply P; reflexivity.
Qed.

Lemma exec_Values (self : Writer) (o : op) :
  m self = Values ->
  err self = None ->
  accepts_every_Write (w self) ->
  well_formed_op o ->
  exists k,
    exec self o =
    Returned (received_more self (values_calls o) k, drained_op o).
Proof.
  intros M E Acc WF.
  destruct o; simpl in WF |- *;
    try (exists (key self); now rewrite received_more_nil).
  - exists (key self). unfold BeginSeries. rewrite E, M. simpl.
    now rewrite received_more_nil.
  - destruct (WriteCursor_complete integer_appends spec_integer_line self cur
                integer_line_eq M E Acc WF) as [k Hk].
    exists k. unfold WriteIntegerCursor. rewrite Hk. reflexivity.
  - destruct (WriteCursor_complete float_appends spec_float_line self cur
                float_line_eq M E Acc WF) as [k Hk].
    exists k. unfold WriteFloatCursor. rewrite Hk. reflexivity.
  - destruct (WriteCursor_complete unsigned_appends spec_unsigned_line self cur
                unsigned_line_eq M E Acc WF) as [k Hk].
    exists k. unfold WriteUnsignedCursor. rewrite Hk. reflexivity.
  - destruct (WriteCursor_complete boolean_appends spec_boolean_line self cur
                boolean_line_eq M E Acc WF) as [k Hk].
    exists k. unfold WriteBooleanCursor. rewrite Hk. reflexivity.
  - destruct (WriteCursor_complete string_appends spec_string_line self cur
                string_line_eq M E Acc WF) as [k Hk].
    exists k. unfold WriteStringCursor. rewrite Hk. reflexivity.
  - exists (key self). reflexivity.
Qed.

Lemma run_Values (ops : list op) :
  forall self,
    m self = Values ->
    err self = None ->
    accepts_every_Write (w self) ->
    Forall well_formed_op ops ->
    exists k,
      run self ops =
      Returned (received_more self (flat_map values_calls ops) k,
                map drained_op ops).
Proof.
  induction ops as [|o rest IH]; intros self M E Acc WF.
  - exists (key self). simpl. now rewrite received_more_nil.
  - inversion WF as [|? ? Wo Wrest]; subst.
    destruct (exec_Values self o M E Acc Wo) as [k1 H1].
    destruct (IH (received_more self (values_calls o) k1) M E
                 (fun h p => Acc h p) Wrest) as [k2 H2].
    exists k2. cbn [run]. rewrite H1, H2. simpl.
    now rewrite received_more_twice.
Qed.

(** X9: in [Values] mode, not latched, on a sink that takes every write
    and with no value missing in any cursor, a call sequence returns with
    every cursor drained; the sink has received, in call order, one write
    per point of each typed Write call (its line) and one flush per
    [Close], and nothing for [BeginSeries], [EndSeries], [NewBucket] or
    [Err]; the latch and the mode are as they were and the scratch slice
    shows some bytes [k].  The output is the lines of the typed Write
    calls, in order, and the latch is still unset. *)
Theorem Values_output_is_the_point_lines (self : Writer) (ops : list op) :
  m self = Values ->
  Err self = None ->
  accepts_every_Write (w self) ->
  Forall well_formed_op ops ->
  (exists k,
      run self ops =
      Returned (received_more self (flat_map values_calls ops) k,
                map drained_op ops)) /\
  output_after self ops =
    bufio.output (w self) ++ concat (flat_map values_lines ops) /\
  Err (encoder_after self ops) = None.
Proof.
  intros M E Acc WF. destruct (run_Values ops self M E Acc WF) as [k R].
  split; [exists k; exact R|].
  unfold output_after, encoder_after. rewrite R. simpl fst. split.
  - now rewrite output_received_more, payload_values_calls.
  - exact E.
Qed.

End CallSequences.

(** * Success, failure and panic of a typed Write method *)

(** X6: for every typed Write method ([WriteCursor] at the appends of the
    method's line) in [Values] mode with no prior error, on any sink: if
    the call returns and [Err] is still none, then every point of the
    stream was written, one write per line in order, and nothing else
    reached the sink; no timestamp lacked its value, and the cursor is left
    behind the batch of length zero that ended the stream.  The mode is as
    it was, the scratch slice shows some bytes [k]. *)
Theorem no_error_means_every_point_written {V : Type}
    (appends : body V) (self : Writer) (cur : tsdb.Cursor V)
    (s : Writer) (c : tsdb.Cursor V) :
  m self = Values ->
  Err self = None ->
  WriteCursor appends self cur = Returned (s, c) ->
  Err s = None ->
  (exists k, s = set_key (emit self (map (rendered appends) (points_of cur))) k) /\
  c = drained cur /\
  Forall parallel (stream (tsdb.pending cur)).
Proof.
  intros M E R Es. unfold WriteCursor in R. unfold Err in E. rewrite E, M in R.
  simpl in R.
  destruct (drain_success appends _ _ _ _ _ _ E R Es) as (A & -> & Par).
  unfold lines_of in A. rewrite flat_map_lines in A.
  split; [|split; [reflexivity | exact Par]].
  exists (key s). now apply alike_set_key.
Qed.

(** X7: a typed Write method does not panic when every batch of the stream
    has a value for every timestamp, whatever the sink answers, the mode
    and the latch; values beyond the timestamps are never read. *)
Theorem no_panic_when_values_cover_timestamps {V : Type}
    (appends : body V) (self : Writer) (cur : tsdb.Cursor V) :
  Forall parallel (stream (tsdb.pending cur)) ->
  has_panicked (WriteCursor appends self cur) = false.
Proof.
  intros Par. unfold WriteCursor.
  destruct (not_nil (err self) || Bool.eqb (m self) Series) eqn:G;
    [reflexivity|].
  destruct (guard_false self G) as [E _].
  now apply drain_wrote.
Qed.

(** X8: in [Values] mode with no prior error, on a sink that takes every
    write: when the batches [done] are not empty and have their values, and
    the batch [a] after them has fewer values than timestamps, the method
    panics (index out of range) after it has written the lines of [done]
    and one line for each value of [a]; the latch is not set, the mode is
    as it was, the scratch slice shows some bytes [k], and the batches
    behind [a] are left in the cursor. *)
Theorem missing_value_panics_after_the_lines_before {V : Type}
    (appends : body V) (self : Writer) (cur : tsdb.Cursor V)
    (done : list (tsdb.Array V)) (a : tsdb.Array V) (rest : list (tsdb.Array V)) :
  m self = Values ->
  Err self = None ->
  accepts_every_Write (w self) ->
  tsdb.pending cur = done ++ a :: rest ->
  Forall (fun b => tsdb.Len b <> 0%nat /\ parallel b) done ->
  (length (tsdb.Values a) < length (tsdb.Timestamps a))%nat ->
  (exists k,
      WriteCursor appends self cur =
      Panicked
        (set_key (emit self (map (rendered appends)
                                 (flat_map pairs done ++ pairs a))) k,
         tsdb.mkCursor rest (tsdb.fetched cur + length done + 1))) /\
  length (pairs a) = length (tsdb.Values a) /\
  Err (fst (state_of (WriteCursor appends self cur))) = None.
Proof.
  intros M E Acc P Ok Short.
  assert (R : exists k,
             WriteCursor appends self cur =
             Panicked
               (set_key (emit self (map (rendered appends)
                                        (flat_map pairs done ++ pairs a))) k,
                tsdb.mkCursor rest (tsdb.fetched cur + length done + 1))).
  { unfold WriteCursor. unfold Err in E. rewrite E, M, P. simpl.
    destruct (drain_short appends done self (OnKey (length (key self)))
                (tsdb.fetched cur) a rest Acc E Ok Short) as [k Hk].
    exists k. rewrite Hk.
    unfold lines_of. rewrite map_app, flat_map_lines. reflexivity. }
  split; [exact R|]. split.
  - unfold pairs. rewrite length_combine. lia.
  - destruct R as [k ->]. exact E.
Qed.

(** * Reading the point lines back

    A reader for the lines of integer and unsigned points, to state that
    the encoding loses nothing and is unambiguous.  It is no part of the
    encoder. *)

(** The bytes before the first [sep], and the bytes after it. *)
Fixpoint cut (sep : byte) (s : bytes) : option (bytes * bytes) :=
  match s with
  | [] => None
  | c :: rest =>
      if Byte.eqb c sep then Some ([], rest)
      else
        match cut sep rest with
        | Some (a, b) => Some (c :: a, b)
        | None => None
        end
  end.

(** A byte of a decimal numeral: a digit or the minus sign. *)
Definition numeral (b : byte) : bool :=
  match b with
  | x2d | x30 | x31 | x32 | x33 | x34 | x35 | x36 | x37 | x38 | x39 => true
  | _ => false
  end.

Lemma cut_token (sep : byte) (tok rest : bytes) :
  Forall (fun b => Byte.eqb b sep = false) tok ->
  cut sep (tok ++ sep :: rest) = Some (tok, rest).
Proof.
  induction 1 as [|c tok Hc _ IH]; simpl.
  - rewrite (Byte.byte_dec_lb (eq_refl sep)). reflexivity.
  - now rewrite Hc, IH.
Qed.

Lemma numeral_digits (u : Decimal.uint) :
  Forall (fun b => numeral b = true)
         (list_byte_of_string (NilEmpty.string_of_uint u)).
Proof.
  induction u; simpl; constructor; auto.
Qed.

Lemma numeral_uint (d : Decimal.uint) :
  Forall (fun b => numeral b = true)
         (list_byte_of_string (NilZero.string_of_uint d)).
Proof.
  destruct d;
    match goal with
    | |- context [NilZero.string_of_uint ?x] =>
        first [ exact (numeral_digits x) | exact (numeral_digits (D0 Nil)) ]
    end.
Qed.

Lemma numeral_FormatUint (u : N) :
  Forall (fun b => numeral b = true) (strconv.FormatUint u).
Proof. apply numeral_uint. Qed.

Lemma numeral_FormatInt (i : Z) :
  Forall (fun b => numeral b = true) (strconv.FormatInt i).
Proof.
  unfold strconv.FormatInt. destruct (Z.to_int i) as [d|d].
  - apply numeral_uint.
  - constructor; [reflexivity | apply numeral_uint].
Qed.

(** A numeral holds none of the bytes that end a field of a line. *)
Lemma numeral_clean (sep : byte) (tok : bytes) :
  numeral sep = false ->
  Forall (fun b => numeral b = true) tok ->
  Forall (fun b => Byte.eqb b sep = false) tok.
Proof.
  intros Hs. induction 1 as [|c tok Hc _ IH]; constructor; [|exact IH].
  destruct (Byte.eqb c sep) eqn:Q; [|reflexivity].
  apply Byte.byte_dec_bl in Q. congruence.
Qed.

Section Reading.

Context {A : Type}.
Variable suffix : byte.
Variable format : A -> bytes.
Variable parse : bytes -> option A.

(** The line of a point whose value is written by [format] and followed by
    the type suffix. *)
Definition suffixed_line (p : Z * A) : bytes :=
  format (snd p) ++ [suffix; " "%byte] ++ strconv.FormatInt (fst p) ++ [x0a].

(** One line off the front: the value up to the suffix, a space, the
    timestamp up to the newline; and what follows the line. *)
Definition read_line (s : bytes) : option ((Z * A) * bytes) :=
  match cut suffix s with
  | Some (v, c :: r) =>
      if Byte.eqb c " "%byte then
        match cut x0a r with
        | Some (t, rest) =>
            match parse v, strconv.ParseInt t with
            | Some v', Some t' => Some ((t', v'), rest)
            | _, _ => None
            end
        | None => None
        end
      else None
  | _ => None
  end.

(** Lines off the front until nothing is left. *)
Fixpoint read_lines (fuel : nat) (s : bytes) : option (list (Z * A)) :=
  match fuel with
  | O => match s with [] => Some [] | _ => None end
  | S fuel' =>
      match read_line s with
      | Some (p, rest) =>
          match read_lines fuel' rest with
          | Some ps => Some (p :: ps)
          | None => None
          end
      | None => match s with [] => Some [] | _ => None end
      end
  end.

(** A line is at least a byte long, so the length of the text is fuel
    enough. *)
Definition decode (s : bytes) : option (list (Z * A)) :=
  read_lines (length s) s.

Hypothesis parse_format : forall a, parse (format a) = Some a.
Hypothesis format_clean :
  forall a, Forall (fun b => Byte.eqb b suffix = false) (format a).

Lemma read_line_suffixed (p : Z * A) (rest : bytes) :
  read_line (suffixed_line p ++ rest) = Some (p, rest).
Proof.
  destruct p as [t v]. unfold read_line, suffixed_line. simpl fst. simpl snd.
  rewrite <- !app_assoc. simpl.
  rewrite (cut_token suffix (format v) _ (format_clean v)). simpl.
  rewrite (cut_token x0a (strconv.FormatInt t) rest).
  - now rewrite parse_format, ParseInt_FormatInt.
  - apply numeral_clean; [reflexivity | apply numeral_FormatInt].
Qed.

Lemma read_lines_suffixed (ps : list (Z * A)) :
  forall fuel,
    (length ps <= fuel)%nat ->
    read_lines fuel (concat (map suffixed_line ps)) = Some ps.
Proof.
  induction ps as [|p ps IH]; intros fuel Hf.
  - destruct fuel; reflexivity.
  - destruct fuel as [|fuel]; simpl in Hf; [lia|].
    cbn [map concat read_lines].
    rewrite read_line_suffixed, IH by lia. reflexivity.
Qed.

Lemma length_lines (ps : list (Z * A)) :
  (length ps <= length (concat (map suffixed_line ps)))%nat.
Proof.
  induction ps as [|p ps IH]; simpl; [lia|].
  unfold suffixed_line at 1. rewrite !length_app. simpl. lia.
Qed.

Lemma decode_suffixed (ps : list (Z * A)) :
  decode (concat (map suffixed_line ps)) = Some ps.
Proof.
  apply read_lines_suffixed, length_lines.
Qed.

Lemma suffixed_lines_inj (ps qs : list (Z * A)) :
  concat (map suffixed_line ps) = concat (map suffixed_line qs) -> ps = qs.
Proof.
  intros E. pose proof (decode_suffixed ps) as D.
  rewrite E, decode_suffixed in D. now injection D.
Qed.

End Reading.

Lemma output_WriteCursor_complete {V : Type} (appends : body V)
    (spec_line : Z * V -> bytes) (self : Writer) (cur : tsdb.Cursor V) :
  (forall p, rendered appends p = spec_line p) ->
  m self = Values ->
  err self = None ->
  accepts_every_Write (w self) ->
  Forall parallel (stream (tsdb.pending cur)) ->
  bufio.output (w (fst (state_of (WriteCursor appends self cur)))) =
  bufio.output (w self) ++ concat (map spec_line (points_of cur)).
Proof.
  intros L M E Acc Par.
  destruct (WriteCursor_complete appends spec_line self cur L M E Acc Par)
    as [k Hk].
  rewrite Hk. apply output_emit.
Qed.

(** X10: what [WriteIntegerCursor] writes reads back as the points it was
    given: in [Values] mode with no prior error, on a sink that takes every
    write and with no value missing, the bytes it adds to the output decode
    (value up to [i], space, timestamp up to newline, line after line) to
    the points of the stream, in order.  So two point sequences with the
    same integer lines are the same sequence. *)
Theorem integer_output_reads_back :
  (forall (self : Writer) (cur : tsdb.IntegerArrayCursor),
      m self = Values ->
      Err self = None ->
      accepts_every_Write (w self) ->
      Forall parallel (stream (tsdb.pending cur)) ->
      exists out,
        bufio.output (w (fst (state_of (WriteIntegerCursor self cur)))) =
        bufio.output (w self) ++ out /\
        decode "i"%byte strconv.ParseInt out = Some (points_of cur)) /\
  (forall ps qs : list (Z * Z),
      concat (map spec_integer_line ps) = concat (map spec_integer_line qs) ->
      ps = qs).
Proof.
  assert (C : forall v : Z,
             Forall (fun b => Byte.eqb b "i"%byte = false) (strconv.FormatInt v)).
  { intros v. apply numeral_clean; [reflexivity | apply numeral_FormatInt]. }
  split.
  - intros self cur M E Acc Par.
    exists (concat (map spec_integer_line (points_of cur))). split.
    + apply output_WriteCursor_complete; auto using integer_line_eq.
    + apply (decode_suffixed "i"%byte strconv.FormatInt strconv.ParseInt
               ParseInt_FormatInt C).
  - apply (suffixed_lines_inj "i"%byte strconv.FormatInt strconv.ParseInt
             ParseInt_FormatInt C).
Qed.

(** X11: what [WriteUnsignedCursor] writes reads back as the points it was
    given: under the same conditions the bytes it adds to the output decode
    (value up to [u], space, timestamp up to newline) to the points of the
    stream, in order; two point sequences with the same unsigned lines are
    the same sequence. *)
Theorem unsigned_output_reads_back :
  (forall (self : Writer) (cur : tsdb.UnsignedArrayCursor),
      m self = Values ->
      Err self = None ->
      accepts_every_Write (w self) ->
      Forall parallel (stream (tsdb.pending cur)) ->
      exists out,
        bufio.output (w (fst (state_of (WriteUnsignedCursor self cur)))) =
        bufio.output (w self) ++ out /\
        decode "u"%byte ParseUint out = Some (points_of cur)) /\
  (forall ps qs : list (Z * N),
      concat (map spec_unsigned_line ps) = concat (map spec_unsigned_line qs) ->
      ps = qs).
Proof.
  assert (C : forall v : N,
             Forall (fun b => Byte.eqb b "u"%byte = false) (strconv.FormatUint v)).
  { intros v. apply numeral_clean; [reflexivity | apply numeral_FormatUint]. }
  split.
  - intros self cur M E Acc Par.
    exists (concat (map spec_unsigned_line (points_of cur))). split.
    + apply output_WriteCursor_complete; auto using unsigned_line_eq.
    + apply (decode_suffixed "u"%byte strconv.FormatUint ParseUint
               ParseUint_FormatUint C).
  - apply (suffixed_lines_inj "u"%byte strconv.FormatUint ParseUint
             ParseUint_FormatUint C).
Qed.




Lemma stream_until_empty {V : Type} (live : list (tsdb.Array V))
    (e : tsdb.Array V) (rest : list (tsdb.Array V)) :
  Forall (fun b => tsdb.Len b <> 0%nat) live ->
  tsdb.Len e = 0%nat ->
  stream (live ++ e :: rest) = live /\ beyond (live ++ e :: rest) = rest.
Proof.
  intros Live He. induction Live as [|b live Hb _ [IHs IHb]]; simpl.
  - now rewrite He.
  - apply Nat.eqb_neq in Hb. rewrite Hb, IHs, IHb. auto.
Qed.

(** X13: a batch of length zero ends the drain wherever it stands: in
    [Values] mode with no prior error, on a sink that takes every write,
    when the cursor holds the non-empty batches [live], then a batch of
    length zero, then [rest], the method writes the lines of [live] and
    returns; nothing of [rest] is written or fetched, whatever it holds,
    and it is still in the cursor.  Latch and mode are as they were, the
    scratch slice shows some bytes [k]. *)
Theorem zero_length_batch_ends_the_drain {V : Type}
    (appends : body V) (self : Writer) (cur : tsdb.Cursor V)
    (live : list (tsdb.Array V)) (e : tsdb.Array V) (rest : list (tsdb.Array V)) :
  m self = Values ->
  Err self = None ->
  accepts_every_Write (w self) ->
  tsdb.pending cur = live ++ e :: rest ->
  Forall (fun b => tsdb.Len b <> 0%nat /\ parallel b) live ->
  tsdb.Len e = 0%nat ->
  exists k,
    WriteCursor appends self cur =
    Returned
      (set_key (emit self (map (rendered appends) (flat_map pairs live))) k,
       tsdb.mkCursor rest (tsdb.fetched cur + length live + 1)).
Proof.
  intros M E Acc P Live He.
  assert (L1 : Forall (fun b => tsdb.Len b <> 0%nat) live)
    by (eapply Forall_impl; [|exact Live]; now intros b [? _]).
  assert (L2 : Forall parallel live)
    by (eapply Forall_impl; [|exact Live]; now intros b [_ ?]).
  destruct (stream_until_empty live e rest L1 He) as [Hs Hb].
  destruct (WriteCursor_reliable appends self cur M E Acc) as [k Hk].
  - now rewrite P, Hs.
  - exists k. rewrite Hk, P, Hs, Hb. reflexivity.
Qed.

(** X14: a typed Write method in [Values] mode with no prior error and with
    no value missing hands the sink the lines of its stream the plain way:
    one write per line, in order, up to and including the first write that
    fails, whatever sink it is; the latch ends as that first error, or
    unset when there was none; the mode is as it was, the scratch slice
    shows some bytes [k].  How the points are cut into batches makes no
    difference. *)
Theorem typed_Write_writes_until_first_failure {V : Type}
    (appends : body V) (self : Writer) (cur : tsdb.Cursor V) :
  m self = Values ->
  Err self = None ->
  Forall parallel (stream (tsdb.pending cur)) ->
  (exists k,
      fst (state_of (WriteCursor appends self cur)) =
      set_key (wrote self (map (rendered appends) (points_of cur))) k) /\
  has_panicked (WriteCursor appends self cur) = false.
Proof.
  intros M E Par. unfold WriteCursor. unfold Err in E. rewrite E, M. simpl.
  destruct (drain_wrote appends (tsdb.pending cur) self
              (OnKey (length (key self))) (tsdb.fetched cur) E Par) as [A P].
  split; [|exact P].
  unfold lines_of in A. rewrite flat_map_lines in A.
  eexists. apply alike_set_key. exact A.
Qed.

(** * The further properties at concrete inputs *)

Definition unsigned_example : tsdb.UnsignedArrayCursor :=
  tsdb.NewCursor [tsdb.points [(10, 100%N); (20, 0%N)]].

Definition boolean_example : tsdb.BooleanArrayCursor :=
  tsdb.NewCursor [tsdb.points [(1, true); (2, false)]].

Definition float_example : tsdb.Cursor (@float64 sample_Imports) :=
  tsdb.NewCursor [tsdb.points [(5, tt)]].

(** A batch of three timestamps and a single value. *)
Definition short_batch : tsdb.Array Z := tsdb.mkArray [1; 2; 3] [7].

(** A cursor with a batch of length zero between two batches. *)
Definition interrupted_cursor : tsdb.IntegerArrayCursor :=
  tsdb.NewCursor
    [tsdb.points [(10, 100)]; tsdb.points []; tsdb.points [(20, 200)]].

Lemma reliable_accepts (mode : Mode) :
  accepts_every_Write (w (NewWriter (Unbuffered bufio.reliable) mode)).
Proof. intros h p. reflexivity. Qed.

Lemma WriteUnsignedCursor_renders_every_pair_witness :
  exists k,
    WriteUnsignedCursor values_encoder unsigned_example =
    Returned
      (set_key
         (emit values_encoder
            [list_byte_of_string "100u 10" ++ [x0a];
             list_byte_of_string "0u 20" ++ [x0a]]) k,
       tsdb.mkCursor [] 2).
Proof.
  apply (proj1 WriteUnsignedCursor_renders_every_pair
           values_encoder unsigned_example eq_refl eq_refl
           (reliable_accepts Values)).
  simpl. repeat constructor.
Defined.

Lemma WriteBooleanCursor_renders_every_pair_witness :
  exists k,
    WriteBooleanCursor values_encoder boolean_example =
    Returned
      (set_key
         (emit values_encoder
            [list_byte_of_string "true 1" ++ [x0a];
             list_byte_of_string "false 2" ++ [x0a]]) k,
       tsdb.mkCursor [] 2).
Proof.
  apply (proj1 WriteBooleanCursor_renders_every_pair
           values_encoder boolean_example eq_refl eq_refl
           (reliable_accepts Values)).
  simpl. repeat constructor.
Defined.

Lemma WriteFloatCursor_renders_every_pair_witness :
  exists k,
    WriteFloatCursor values_encoder float_example =
    Returned
      (set_key
         (emit values_encoder [list_byte_of_string "0 5" ++ [x0a]]) k,
       tsdb.mkCursor [] 2).
Proof.
  apply (proj1 WriteFloatCursor_renders_every_pair
           values_encoder float_example eq_refl eq_refl
           (reliable_accepts Values)).
  simpl. repeat constructor.
Defined.

Lemma Series_output_is_the_key_lines_witness :
  output_after series_encoder one_series =
  list_byte_of_string "cpu,host=a usage" ++ [x0a].
Proof.
  rewrite (proj2 (Series_output_is_the_key_lines series_encoder one_series
                    eq_refl eq_refl)).
  reflexivity.
Defined.

Lemma Values_output_is_the_point_lines_witness :
  output_after values_encoder one_series =
  list_byte_of_string "100i 10" ++ [x0a] ++
  list_byte_of_string "200i 20" ++ [x0a].
Proof.
  assert (WF : Forall well_formed_op one_series)
    by (unfold one_series; repeat constructor).
  rewrite (proj1 (proj2 (Values_output_is_the_point_lines values_encoder one_series
                           eq_refl eq_refl (reliable_accepts Values) WF))).
  reflexivity.
Defined.

Lemma no_error_means_every_point_written_witness :
  (exists k,
      fst (state_of (WriteCursor integer_appends values_encoder integer_example)) =
      set_key
        (emit values_encoder
           [list_byte_of_string "100i 10" ++ [x0a];
            list_byte_of_string "200i 20" ++ [x0a]]) k) /\
  snd (state_of (WriteCursor integer_appends values_encoder integer_example)) =
  drained integer_example /\
  Forall parallel (stream (tsdb.pending integer_example)).
Proof.
  apply (no_error_means_every_point_written integer_appends
           values_encoder integer_example); reflexivity.
Defined.

Lemma no_panic_when_values_cover_timestamps_witness :
  has_panicked (WriteCursor integer_appends failing_encoder integer_example) = false.
Proof.
  apply no_panic_when_values_cover_timestamps. simpl. repeat constructor.
Defined.

Lemma missing_value_panics_after_the_lines_before_witness :
  exists k,
    WriteCursor integer_appends values_encoder (tsdb.NewCursor [short_batch]) =
    Panicked
      (set_key (emit values_encoder [list_byte_of_string "7i 1" ++ [x0a]]) k,
       tsdb.mkCursor [] 1).
Proof.
  apply (proj1 (missing_value_panics_after_the_lines_before integer_appends
                  values_encoder (tsdb.NewCursor [short_batch])
                  [] short_batch [] eq_refl eq_refl
                  (reliable_accepts Values) eq_refl (Forall_nil _)
                  (le_n_S _ _ (le_n_S _ _ (Nat.le_0_l _))))).
Defined.

Lemma integer_output_reads_back_witness :
  exists out,
    bufio.output (w (fst (state_of (WriteIntegerCursor values_encoder integer_example)))) =
    bufio.output (w values_encoder) ++ out /\
    decode "i"%byte strconv.ParseInt out = Some [(10, 100); (20, 200)].
Proof.
  apply (proj1 integer_output_reads_back values_encoder integer_example
           eq_refl eq_refl (reliable_accepts Values)).
  simpl. repeat constructor.
Defined.

Lemma unsigned_output_reads_back_witness :
  exists out,
    bufio.output (w (fst (state_of (WriteUnsignedCursor values_encoder unsigned_example)))) =
    bufio.output (w values_encoder) ++ out /\
    decode "u"%byte ParseUint out = Some [(10, 100%N); (20, 0%N)].
Proof.
  apply (proj1 unsigned_output_reads_back values_encoder unsigned_example
           eq_refl eq_refl (reliable_accepts Values)).
  simpl. repeat constructor.
Defined.


Lemma zero_length_batch_ends_the_drain_witness :
  exists k,
    WriteCursor integer_appends values_encoder interrupted_cursor =
    Returned
      (set_key (emit values_encoder [list_byte_of_string "100i 10" ++ [x0a]]) k,
       tsdb.mkCursor [tsdb.points [(20, 200)]] 2).
Proof.
  apply (zero_length_batch_ends_the_drain integer_appends values_encoder
           interrupted_cursor [tsdb.points [(10, 100)]] (tsdb.points [])
           [tsdb.points [(20, 200)]] eq_refl eq_refl
           (reliable_accepts Values) eq_refl).
  - repeat constructor. discriminate.
  - reflexivity.
Defined.

Lemma typed_Write_writes_until_first_failure_witness :
  exists k,
    fst (state_of (WriteCursor integer_appends failing_encoder integer_example_split)) =
    set_key
      (mkWriter
         (bufio.mkWriter
            [bufio.WriteCall (list_byte_of_string "100i 10" ++ [x0a]);
             bufio.WriteCall (list_byte_of_string "200i 20" ++ [x0a])]
            (bufio.fails_after 1 disk_full))
         (key failing_encoder) (Some disk_full) Values) k.
Proof.
  apply (proj1 (typed_Write_writes_until_first_failure integer_appends
                  failing_encoder integer_example_split eq_refl eq_refl
                  ltac:(simpl; repeat constructor))).
Defined.
